(** * bot_real_time.py: the marketplace price bot, embedded in Rocq

    The file follows [src/bot_real_time.py] from the leaves up:
    Python strings as lists of code points, [float()] on strings, the two
    price normalisations, the three extractors as programs over the
    browsing capability, the [asyncio.gather] fan-out and the
    [search_products] handler. *)

From Stdlib Require Import List Bool Arith NArith ZArith QArith Lia.
From Stdlib Require Import Ascii String.
Import ListNotations.

(** ** Python strings *)

Module PyStr.

(** A Python [str] is a sequence of Unicode code points. *)
Definition pystr := list N.

(** The source file is UTF-8; a literal of the source is written here as
    a Rocq string holding the same bytes and decoded the way Python
    decodes its source. *)
Fixpoint utf8_decode (bs : list N) : pystr :=
  match bs with
  | [] => []
  | b0 :: r0 =>
    if b0 <? 192 then b0 :: utf8_decode r0
    else match r0 with
    | [] => [b0]
    | b1 :: r1 =>
      if b0 <? 224 then ((b0 - 192) * 64 + (b1 - 128)) :: utf8_decode r1
      else match r1 with
      | [] => [b0; b1]
      | b2 :: r2 =>
        if b0 <? 240
        then ((b0 - 224) * 4096 + (b1 - 128) * 64 + (b2 - 128)) :: utf8_decode r2
        else match r2 with
        | [] => [b0; b1; b2]
        | b3 :: r3 =>
          ((b0 - 240) * 262144 + (b1 - 128) * 4096 + (b2 - 128) * 64 + (b3 - 128))
            :: utf8_decode r3
        end
      end
    end
  end%N.

Definition py (s : string) : pystr :=
  utf8_decode (map N_of_ascii (list_ascii_of_string s)).

Definition eqb (a b : pystr) : bool :=
  if list_eq_dec N.eq_dec a b then true else false.

(** [len(s)] *)
Definition len (s : pystr) : nat := List.length s.

(** [str.isspace] on one character: the Unicode 14 whitespace set that
    CPython 3.11 uses for [str.strip()] and [str.isspace()]. *)
Definition isspace (c : N) : bool :=
  ((9 <=? c) && (c <=? 13) || (28 <=? c) && (c <=? 32)
   || (c =? 133) || (c =? 160) || (c =? 5760)
   || (8192 <=? c) && (c <=? 8202)
   || (c =? 8232) || (c =? 8233) || (c =? 8239) || (c =? 8287)
   || (c =? 12288))%N.

Fixpoint lstrip (s : pystr) : pystr :=
  match s with
  | c :: r => if isspace c then lstrip r else s
  | [] => []
  end.

Definition rstrip (s : pystr) : pystr := rev (lstrip (rev s)).

(** [s.strip()] with no argument *)
Definition strip (s : pystr) : pystr := rstrip (lstrip s).

Fixpoint startswith (s p : pystr) : bool :=
  match p, s with
  | [], _ => true
  | a :: p', b :: s' => (a =? b)%N && startswith s' p'
  | _ :: _, [] => false
  end.

(** [s.replace(old, new)]: every non-overlapping occurrence, left to
    right.  [skip] counts the characters of a matched occurrence that are
    still to be dropped. *)
Fixpoint replace_from (old new s : pystr) (skip : nat) : pystr :=
  match s with
  | [] => []
  | c :: r =>
    match skip with
    | S k => replace_from old new r k
    | O =>
      if startswith s old
      then new ++ replace_from old new r (List.length old - 1)
      else c :: replace_from old new r 0
    end
  end.

Definition replace (s old new : pystr) : pystr :=
  match old with
  | [] => new ++ flat_map (fun c => c :: new) s
  | _ :: _ => replace_from old new s 0
  end.

(** The zero of each run of ten Unicode decimal digits (category Nd),
    Unicode 14.  In every run the characters are 0 to 9 in order. *)
Definition decimal_zeros : list N :=
  [48; 1632; 1776; 1984; 2406; 2534; 2662; 2790; 2918; 3046; 3174; 3302;
   3430; 3558; 3664; 3792; 3872; 4160; 4240; 6112; 6160; 6470; 6608; 6784;
   6800; 6992; 7088; 7232; 7248; 42528; 43216; 43264; 43472; 43504; 43600;
   44016; 65296; 66720; 68912; 69734; 69872; 69942; 70096; 70384; 70736;
   70864; 71248; 71360; 71472; 71904; 72016; 72784; 73040; 73120; 92768;
   92864; 93008; 120782; 120792; 120802; 120812; 120822; 123200; 123632;
   125264; 130032]%N.

Fixpoint decimal_in (zeros : list N) (c : N) : option N :=
  match zeros with
  | [] => None
  | z :: zs =>
    if ((z <=? c) && (c <? z + 10))%N then Some (c - z)%N
    else decimal_in zs c
  end.

(** [Py_UNICODE_TODECIMAL]: the value of a decimal digit character *)
Definition todecimal (c : N) : option N := decimal_in decimal_zeros c.

Definition isdecimal (c : N) : bool :=
  match todecimal c with Some _ => true | None => false end.

(** Characters with Numeric_Type=Digit that are not decimal digits
    (superscripts, circled digits and the like), as closed ranges. *)
Definition digit_only_ranges : list (N * N) :=
  [(178, 179); (185, 185); (4969, 4977); (6618, 6618); (8304, 8304);
   (8308, 8313); (8320, 8329); (9312, 9320); (9332, 9340); (9352, 9360);
   (9450, 9450); (9461, 9469); (9471, 9471); (10102, 10110);
   (10112, 10120); (10122, 10130); (68160, 68163); (69216, 69224);
   (69714, 69722); (127232, 127242)]%N.

(** [str.isdigit] on one character *)
Definition isdigit (c : N) : bool :=
  isdecimal c
  || existsb (fun r => (fst r <=? c) && (c <=? snd r))%N digit_only_ranges.

End PyStr.

(** ** [float(str)] *)

Module PyFloat.
Import PyStr.

(** What [float] reads from a string, kept as the number the literal
    denotes: [Finite neg m e] is (-1)^neg * m * 10^e, with no bound on
    [m] or [e].  CPython stores the binary64 number nearest to it, ties
    to even: the literal itself when it is an integer below 2^53, an
    infinity from 2^1024 - 2^970 on, a zero of the same sign up to
    2^-1075.  That rounding is not computed here: [float] gives the
    literal, and the sign tests below read the number stored for it. *)
Inductive pyfloat : Type :=
| Finite (neg : bool) (m : N) (e : Z)
| Inf (neg : bool)
| NaN.

(** The number the literal denotes *)
Definition value (f : pyfloat) : option Q :=
  match f with
  | Finite neg m e =>
    let a := (inject_Z (Z.of_N m) * Qpower 10 e)%Q in
    Some (Qred (if neg then Qopp a else a))
  | _ => None
  end.

(** Whether m * 10^e is stored as a zero: it is zero, or at most
    2^-1075, the half of the least positive binary64. *)
Definition stored_as_zero (m : N) (e : Z) : bool :=
  (m =? 0)%N || ((e <? 0)%Z && (Z.of_N m * 2 ^ 1075 <=? 10 ^ (- e))%Z).

(** [f < 0] and [f >= 0] as Python evaluates them on the stored number:
    a zero of either sign is not below zero, an infinity has its sign,
    and both tests are false on nan. *)
Definition is_negative (f : pyfloat) : bool :=
  match f with
  | Finite neg m e => neg && negb (stored_as_zero m e)
  | Inf neg => neg
  | NaN => false
  end.

Definition is_nonnegative (f : pyfloat) : bool :=
  match f with
  | Finite neg m e => negb neg || stored_as_zero m e
  | Inf neg => negb neg
  | NaN => false
  end.

(** [_PyUnicode_TransformDecimalAndSpaceToASCII]: an ASCII string is
    taken as it is; otherwise whitespace becomes a space, a decimal digit
    its ASCII digit, and the first other non-ASCII character is replaced
    by '?' and ends the result. *)
Fixpoint transform_loop (s : pystr) : list N :=
  match s with
  | [] => []
  | c :: r =>
    if (c <? 127)%N then c :: transform_loop r
    else if isspace c then 32%N :: transform_loop r
    else match todecimal c with
         | Some d => (48 + d)%N :: transform_loop r
         | None => [63%N]
         end
  end.

Definition transform (s : pystr) : list N :=
  if forallb (fun c => c <? 128)%N s then s else transform_loop s.

Definition is_ascii_digit (c : N) : bool := ((48 <=? c) && (c <=? 57))%N.

(** [_Py_string_to_number_with_underscores]: an underscore is allowed
    only between two digits; the underscores are removed. *)
Fixpoint underscores (prev : N) (s : list N) : option (list N) :=
  match s with
  | [] => if (prev =? 95)%N then None else Some []
  | c :: r =>
    if (c =? 95)%N
    then if is_ascii_digit prev then underscores c r else None
    else if (prev =? 95)%N && negb (is_ascii_digit c) then None
    else option_map (cons c) (underscores c r)
  end.

(** [Py_ISSPACE] *)
Definition is_c_space (c : N) : bool :=
  ((9 <=? c) && (c <=? 13) || (c =? 32))%N.

Fixpoint lstrip_c (s : list N) : list N :=
  match s with
  | c :: r => if is_c_space c then lstrip_c r else s
  | [] => []
  end.

Definition strip_c (s : list N) : list N := rev (lstrip_c (rev (lstrip_c s))).

Fixpoint span_digits (s : list N) : list N * list N :=
  match s with
  | c :: r =>
    if is_ascii_digit c
    then let (d, t) := span_digits r in (c :: d, t)
    else ([], s)
  | [] => ([], [])
  end.

Definition digits_value (ds : list N) : N :=
  fold_left (fun a d => a * 10 + (d - 48))%N ds 0%N.

(** An optional '-' (45) or '+' (43) *)
Definition take_sign (s : list N) : bool * list N :=
  match s with
  | c :: r =>
    if (c =? 45)%N then (true, r)
    else if (c =? 43)%N then (false, r)
    else (false, s)
  | [] => (false, [])
  end.

Definition tolower (c : N) : N :=
  if ((65 <=? c) && (c <=? 90))%N then (c + 32)%N else c.

(** [_Py_parse_inf_or_nan], on a string that must be consumed whole *)
Definition parse_inf_or_nan (s : list N) : option pyfloat :=
  let (neg, r) := take_sign s in
  let l := map tolower r in
  if PyStr.eqb l (py "inf") || PyStr.eqb l (py "infinity") then Some (Inf neg)
  else if PyStr.eqb l (py "nan") then Some NaN
  else None.

(** [_Py_dg_strtod], on a string that must be consumed whole: sign,
    digits with an optional point (at least one digit), and an optional
    exponent that needs a digit. *)
Definition strtod (s : list N) : option pyfloat :=
  let (neg, r) := take_sign s in
  let (ip, r1) := span_digits r in
  let (fp, r2) := match r1 with
                  | c :: t => if (c =? 46)%N then span_digits t else ([], r1)
                  | [] => ([], [])
                  end in
  let m := digits_value (ip ++ fp) in
  let fl := Z.of_nat (List.length fp) in
  match ip ++ fp with
  | [] => None
  | _ :: _ =>
    match r2 with
    | [] => Some (Finite neg m (- fl))
    | c :: r3 =>
      if ((c =? 101) || (c =? 69))%N then
        let (eneg, r4) := take_sign r3 in
        let (ed, r5) := span_digits r4 in
        let ex := Z.of_N (digits_value ed) in
        match ed, r5 with
        | _ :: _, [] => Some (Finite neg m ((if eneg then - ex else ex) - fl))
        | _, _ => None
        end
      else None
    end
  end.

(** [float_from_string_inner] behind the underscore check: surrounding
    C whitespace is dropped, nothing left is an error, and the rest must
    be a number from its first character to its last. *)
Definition float_ascii (a : list N) : option pyfloat :=
  match underscores 0%N a with
  | None => None
  | Some b =>
    match strip_c b with
    | [] => None
    | c =>
      match parse_inf_or_nan c with
      | Some f => Some f
      | None => strtod c
      end
    end
  end.

(** [float(s)] for a [str]: [None] is [ValueError], and a number is
    given as the literal that was read (see [pyfloat]). *)
Definition float (s : pystr) : option pyfloat := float_ascii (transform s).

End PyFloat.

(** ** Price normalisation *)

Module Price.
Import PyStr PyFloat.

(** The two literals of lines 26 and 55 that the source strips first, as
    the code points Python reads from the file: U+00E2 U+0080 U+0089 and
    U+00E2 U+0082. *)
Definition artifact_thin_space : pystr := [226; 128; 137]%N.
Definition artifact_currency : pystr := [226; 130]%N.

(** [price_raw.replace(.., '').replace(.., '').replace(' ', '')
      .replace(',', '.').strip()] *)
Definition clean_decimal (price_raw : pystr) : pystr :=
  strip
    (replace
       (replace
          (replace (replace price_raw artifact_thin_space []) artifact_currency [])
          (py " ") [])
       (py ",") (py ".")).

(** Lines 26 and 55: the decimal strategy of parse_wildberries and
    parse_ozon.  [None] is the [ValueError] of [float]. *)
Definition decimal_price (price_raw : pystr) : option pyfloat :=
  float (clean_decimal price_raw).

(** [''.join(filter(str.isdigit, price_raw))] *)
Definition digits_only (price_raw : pystr) : pystr := filter isdigit price_raw.

(** Line 84: the digits-only strategy of parse_yandex_market. *)
Definition digits_price (price_raw : pystr) : option pyfloat :=
  float (digits_only price_raw).

End Price.

(** ** The browsing capability and programs over it *)

Module Prog.
Import PyStr.

(** An [ElementHandle] returned by [query_selector_all]. *)
Definition handle := nat.

(** What [query_selector_eval] hands back to Python for the expressions
    of the source ([el.textContent], [el.href], [el.src]): a [str] or
    [None]. *)
Inductive jsval : Type :=
| JNull
| JStr (s : pystr).

(** The exceptions of the model, all subclasses of [Exception]:
    Playwright's [TimeoutError], any other error raised by a Playwright
    call, and the three that the Python code of an item can raise. *)
Inductive exn : Type :=
| PlaywrightTimeoutError
| PlaywrightError
| AttributeError
| TypeError
| ValueError.

(** The awaited calls on the shared [page] and on a card, indexed by the
    type of what they return. *)
Inductive call : Type -> Type :=
| goto (url : pystr) (timeout : N) : call unit
| wait_for_selector (selector : pystr) (timeout : N) : call unit
| query_selector_all (selector : pystr) : call (list handle)
| query_selector_eval (card : handle) (selector expression : pystr) : call jsval.

Inductive level : Type := WARNING | ERROR.

(** One call of [logger.warning] or [logger.error]: the text before the
    interpolated exception, and the exception when the message has one. *)
Record log_record : Type := LogRecord
  { log_level : level; log_text : pystr; log_exn : option exn }.

(** How an awaited call or a piece of Python code ends. *)
Inductive result (A : Type) : Type :=
| Ok (a : A)
| Err (e : exn).

Arguments Ok {A} a.
Arguments Err {A} e.

(** A coroutine as a tree: it returns, logs and goes on, or awaits a
    call and goes on with the value or the exception the call ends with. *)
Inductive prog (R : Type) : Type :=
| Ret (r : R)
| Log (l : log_record) (k : prog R)
| Await (X : Type) (c : call X) (k : result X -> prog R).

Arguments Ret {R} r.
Arguments Log {R} l k.
Arguments Await {R X} c k.

Fixpoint pbind {R T : Type} (p : prog R) (f : R -> prog T) : prog T :=
  match p with
  | Ret r => f r
  | Log l k => Log l (pbind k f)
  | Await c k => Await c (fun x => pbind (k x) f)
  end.

(** The body of a Python function with one mutable local [S] (the
    [results] list of an extractor): the local survives a raise, so a
    handler sees it as the raise left it. *)
Definition pym (S A : Type) : Type := S -> prog (result A * S).

Section Monad.
Context {S : Type}.

Definition ret {A} (a : A) : pym S A := fun s => Ret (Ok a, s).

Definition raise {A} (e : exn) : pym S A := fun s => Ret (Err e, s).

Definition bind {A B} (m : pym S A) (f : A -> pym S B) : pym S B :=
  fun s => pbind (m s) (fun rs =>
    match fst rs with
    | Ok a => f a (snd rs)
    | Err e => Ret (Err e, snd rs)
    end).

(** [try: m except Exception as e: h e] *)
Definition try_except {A} (m : pym S A) (h : exn -> pym S A) : pym S A :=
  fun s => pbind (m s) (fun rs =>
    match fst rs with
    | Ok a => Ret (Ok a, snd rs)
    | Err e => h e (snd rs)
    end).

(** [await c] *)
Definition await {X} (c : call X) : pym S X :=
  fun s => Await c (fun r => Ret (r, s)).

Definition log (l : log_record) : pym S unit :=
  fun s => Log l (Ret (Ok tt, s)).

Definition get : pym S S := fun s => Ret (Ok s, s).

Definition modify (f : S -> S) : pym S unit := fun s => Ret (Ok tt, f s).

(** A value or an exception computed by Python code without awaiting *)
Definition lift {A} (r : result A) : pym S A := fun s => Ret (r, s).

(** [for x in l: body x] *)
Fixpoint for_each {A} (l : list A) (body : A -> pym S unit) : pym S unit :=
  match l with
  | [] => ret tt
  | x :: r => bind (body x) (fun _ => for_each r body)
  end.

End Monad.

(** A function that starts with its local at [s0] and ends with
    [return] of what [m] gives. *)
Definition function {S A} (s0 : S) (m : pym S A) : prog (result A) :=
  pbind (m s0) (fun rs => Ret (fst rs)).

Declare Scope pym_scope.
Delimit Scope pym_scope with pym.
Notation "x <- m ;; k" := (bind m (fun x => k))
  (at level 61, m at next level, right associativity) : pym_scope.
Notation "m ;; k" := (bind m (fun _ => k))
  (at level 61, right associativity) : pym_scope.

End Prog.

(** ** The extractors *)

Module Bot.
Import PyStr PyFloat Price Prog.
Local Open Scope pym_scope.

(** The dict an extractor appends to [results]. *)
Record listing : Type := Listing
  { title : pystr;
    marketplace : pystr;
    price : pyfloat;
    url : jsval;
    image : jsval }.

(** [title.strip()]: [None] has no [strip]. *)
Definition str_strip (v : jsval) : result pystr :=
  match v with
  | JStr s => Ok (strip s)
  | JNull => Err AttributeError
  end.

(** Lines 26 and 55: [None] has no [replace]; [float] raises
    [ValueError]. *)
Definition float_decimal (price_raw : jsval) : result pyfloat :=
  match price_raw with
  | JNull => Err AttributeError
  | JStr s =>
    match decimal_price s with
    | Some f => Ok f
    | None => Err ValueError
    end
  end.

(** Line 84: [filter] over [None] raises [TypeError]. *)
Definition float_digits (price_raw : jsval) : result pyfloat :=
  match price_raw with
  | JNull => Err TypeError
  | JStr s =>
    match digits_price s with
    | Some f => Ok f
    | None => Err ValueError
    end
  end.

(** What differs between the three extractors of the source, which are
    the same text otherwise. *)
Record source : Type := Source
  { search_url : pystr;
    result_selector : pystr;
    title_selector : pystr;
    price_selector : pystr;
    to_price : jsval -> result pyfloat;
    link_selector : pystr;
    label : pystr;
    item_error_text : pystr;
    timeout_text : pystr;
    failed_text : pystr }.

Definition text_content : pystr := py "el => el.textContent".
Definition el_href : pystr := py "el => el.href".
Definition el_src : pystr := py "el => el.src".

(** The body of [for card in cards[:5]]: the inner [try] with its
    [except Exception]. *)
Definition parse_item (src : source) (card : handle) : pym (list listing) unit :=
  try_except
    (title_ <- await (query_selector_eval card (title_selector src) text_content) ;;
     price_raw <- await (query_selector_eval card (price_selector src) text_content) ;;
     price_ <- lift (to_price src price_raw) ;;
     href <- await (query_selector_eval card (link_selector src) el_href) ;;
     image_ <- await (query_selector_eval card (py "img") el_src) ;;
     stripped <- lift (str_strip title_) ;;
     modify (fun results =>
       results ++ [ {| title := stripped;
                       marketplace := label src;
                       price := price_;
                       url := href;
                       image := image_ |} ]))
    (fun e => log (LogRecord WARNING (item_error_text src) (Some e))).

(** The outer [except PlaywrightTimeoutError] and [except Exception]. *)
Definition on_failure (src : source) (e : exn) : pym (list listing) unit :=
  match e with
  | PlaywrightTimeoutError => log (LogRecord WARNING (timeout_text src) None)
  | _ => log (LogRecord ERROR (failed_text src) (Some e))
  end.

Definition build_url (src : source) (query : pystr) : pystr :=
  search_url src ++ query.

Definition parse_source (src : source) (query : pystr)
  : prog (result (list listing)) :=
  let url_ := build_url src query in
  function []
    (try_except
       (await (goto url_ 15000) ;;
        await (wait_for_selector (result_selector src) 10000) ;;
        cards <- await (query_selector_all (result_selector src)) ;;
        for_each (firstn 5 cards) (parse_item src))
       (on_failure src) ;;
     get).

(** The double quote inside a selector of the source *)
Definition dq : pystr := [34%N].

Definition WILDBERRIES : pystr := py "Wildberries".
Definition OZON : pystr := py "Ozon".
Definition YANDEX_MARKET : pystr := py "Yandex.Market".

Definition wildberries : source :=
  {| search_url := py "https://www.wildberries.ru/catalog/0/search.aspx?search=";
     result_selector := py ".product-card";
     title_selector := py ".goods-name";
     price_selector := py ".lower-price";
     to_price := float_decimal;
     link_selector := py "a";
     label := WILDBERRIES;
     item_error_text := py "Wildberries parse error item: ";
     timeout_text := py "Wildberries: Timeout or no results found";
     failed_text := py "Wildberries parsing failed: " |}.

Definition ozon : source :=
  {| search_url := py "https://www.ozon.ru/search/?text=";
     result_selector := py "div[data-widget=" ++ dq ++ py "searchResultsV2" ++ dq
         ++ py "] div[role=" ++ dq ++ py "listitem" ++ dq ++ py "]";
     title_selector := py "a span";
     price_selector := py "span[data-widget=" ++ dq ++ py "price" ++ dq ++ py "]";
     to_price := float_decimal;
     link_selector := py "a";
     label := OZON;
     item_error_text := py "Ozon parse error item: ";
     timeout_text := py "Ozon: Timeout or no results found";
     failed_text := py "Ozon parsing failed: " |}.

Definition yandex_market : source :=
  {| search_url := py "https://market.yandex.ru/search?text=";
     result_selector := py "div[data-zone-name=" ++ dq ++ py "search-result" ++ dq ++ py "]";
     title_selector := py "h3 a";
     price_selector := py "[data-auto=" ++ dq ++ py "mainPrice" ++ dq ++ py "]";
     to_price := float_digits;
     link_selector := py "h3 a";
     label := YANDEX_MARKET;
     item_error_text := py "Yandex Market parse error item: ";
     timeout_text := py "Yandex Market: Timeout or no results found";
     failed_text := py "Yandex Market parsing failed: " |}.

Definition parse_wildberries (query : pystr) := parse_source wildberries query.
Definition parse_ozon (query : pystr) := parse_source ozon query.
Definition parse_yandex_market (query : pystr) := parse_source yandex_market query.

(** ** Running coroutines against a browser *)

(** A call without the type of its answer, for the trace. *)
Inductive request : Type :=
| ReqGoto (url : pystr)
| ReqWait (selector : pystr)
| ReqQueryAll (selector : pystr)
| ReqEval (card : handle) (selector expression : pystr).

Definition request_of {X} (c : call X) : request :=
  match c with
  | goto u _ => ReqGoto u
  | wait_for_selector sel _ => ReqWait sel
  | query_selector_all sel => ReqQueryAll sel
  | query_selector_eval card sel e => ReqEval card sel e
  end.

Definition failure {X} (r : result X) : option exn :=
  match r with
  | Ok _ => None
  | Err e => Some e
  end.

(** What the handler does to the outside, in order.  [Awaited], [Logged]
    and [Done] carry the index of the task in the [gather] list. *)
Inductive event : Type :=
| ReplyText (text : pystr)
| ReplyPhoto (photo : pystr) (item : listing)
| Launch
| NewPage
| Close
| Awaited (task : nat) (rq : request) (failed : option exn)
| Logged (task : nat) (l : log_record)
| Done (task : nat) (failed : option exn).

Definition is_ret {R} (p : prog R) : bool :=
  match p with
  | Ret _ => true
  | _ => false
  end.

Fixpoint update {A} (i : nat) (x : A) (l : list A) : list A :=
  match l, i with
  | [], _ => []
  | _ :: r, O => x :: r
  | y :: r, S j => y :: update j x r
  end.

Section Semantics.

(** The browser: any state, and any answer to any call in any state,
    an exception included. *)
Variable St : Type.
Variable respond : forall X, call X -> St -> result X * St.

Section Tasks.
Context {A : Type}.
Local Abbreviation task := (prog (result A)).

Definition done_event (i : nat) (p : task) : list event :=
  match p with
  | Ret r => [Done i (failure r)]
  | _ => []
  end.

(** One resumption of task [i]: a log record is written, or the awaited
    call is answered. *)
Definition step (i : nat) (p : task) (s : St) : task * St * list event :=
  match p with
  | Ret _ => (p, s, [])
  | Log l k => (k, s, Logged i l :: done_event i k)
  | Await c k =>
    let (x, s') := respond _ c s in
    (k x, s', Awaited i (request_of c) (failure x) :: done_event i (k x))
  end.

(** Task [i] resumed until it returns. *)
Fixpoint run (i : nat) (p : task) (s : St) : result A * St * list event :=
  match p with
  | Ret r => (r, s, [])
  | Log l k =>
    let '(r, s', ev) := run i k s in
    (r, s', Logged i l :: if is_ret k then Done i (failure r) :: ev else ev)
  | Await c k =>
    let (x, s1) := respond _ c s in
    let '(r, s', ev) := run i (k x) s1 in
    (r, s', Awaited i (request_of c) (failure x)
              :: if is_ret (k x) then Done i (failure r) :: ev else ev)
  end.

(** The event loop resumes the tasks in the order [sched] names them
    (an index out of range resumes nothing). *)
Fixpoint run_schedule (sched : list nat) (ts : list task) (s : St)
  : list task * St * list event :=
  match sched with
  | [] => (ts, s, [])
  | i :: sched' =>
    match nth_error ts i with
    | None => run_schedule sched' ts s
    | Some p =>
      let '(p', s1, ev) := step i p s in
      let '(ts', s', evs) := run_schedule sched' (update i p' ts) s1 in
      (ts', s', ev ++ evs)
    end
  end.

(** When the schedule is used up, every task still running is resumed
    until it returns, so that all of them complete. *)
Fixpoint finish (i : nat) (ts : list task) (s : St)
  : list (result A) * St * list event :=
  match ts with
  | [] => ([], s, [])
  | p :: ts' =>
    let '(r, s1, ev) := run i p s in
    let '(rs, s', evs) := finish (S i) ts' s1 in
    (r :: rs, s', ev ++ evs)
  end.

Definition run_all (sched : list nat) (ts : list task) (s : St)
  : list (result A) * St * list event :=
  let '(ts', s1, ev) := run_schedule sched ts s in
  let '(rs, s', evs) := finish 0 ts' s1 in
  (rs, s', ev ++ evs).

(** The tasks in the order they completed. *)
Fixpoint completion_order (ev : list event) : list nat :=
  match ev with
  | [] => []
  | Done i _ :: r => i :: completion_order r
  | _ :: r => completion_order r
  end.

Fixpoint first_raised (ev : list event) : option exn :=
  match ev with
  | [] => None
  | Done _ (Some e) :: _ => Some e
  | _ :: r => first_raised r
  end.

Fixpoint values (rs : list (result A)) : list A :=
  match rs with
  | [] => []
  | Ok a :: r => a :: values r
  | Err _ :: r => values r
  end.

(** [await asyncio.gather] on the tasks [ts]: the values in the order of [ts] when
    every task returned; the exception of the first task that raised
    otherwise. *)
Definition gather (sched : list nat) (ts : list task) (s : St)
  : result (list A) * St * list event :=
  let '(rs, s', ev) := run_all sched ts s in
  match first_raised (flat_map (done_event 0) ts ++ ev) with
  | Some e => (Err e, s', ev)
  | None => (Ok (values rs), s', ev)
  end.

End Tasks.

Definition PROMPT : pystr :=
  py "Пожалуйста, введи минимум 2 символа для поиска.".
Definition searching (query : pystr) : pystr :=
  py "Ищу «" ++ query ++ py "» на маркетплейсах, это займет до 15 секунд...".
Definition NOTHING : pystr := py "Ничего не найдено по твоему запросу.".
Definition PLACEHOLDER : pystr := py "https://via.placeholder.com/300x200".

(** [item['image'] or placeholder] *)
Definition photo_of (item : listing) : pystr :=
  match image item with
  | JStr (c :: r) => c :: r
  | _ => PLACEHOLDER
  end.

(** How a call of the handler ends: what it did, and the exception it
    let through, if any. *)
Record outcome : Type := Outcome
  { events : list event;
    raised : option exn;
    final : St }.

(** [search_products]: [text] is [update.message.text], [sched] the
    order in which the event loop resumes the three extractors.  The
    calls on the chat and on the browser object ([reply_text], [launch],
    [new_page], [close], [reply_photo]) are written down as events of the
    run in which each of them returns; the source catches none of their
    exceptions, and a run that one of them ends is not described. *)
Definition search_products (text : pystr) (sched : list nat) (s : St) : outcome :=
  let query := strip text in
  if len query <? 2 then
    {| events := [ReplyText PROMPT]; raised := None; final := s |}
  else
    let tasks := [parse_wildberries query; parse_ozon query;
                  parse_yandex_market query] in
    let '(res, s', ev) := gather sched tasks s in
    let opened := ReplyText (searching query) :: Launch :: NewPage :: ev in
    match res with
    | Err e => {| events := opened; raised := Some e; final := s' |}
    | Ok results =>
      let all_results := List.concat results in
      let replies :=
        match all_results with
        | [] => [ReplyText NOTHING]
        | _ :: _ => map (fun item => ReplyPhoto (photo_of item) item) all_results
        end in
      {| events := opened ++ Close :: replies; raised := None; final := s' |}
    end.

(** The flattened [all_results] of a call, when it got that far. *)
Definition all_results (text : pystr) (sched : list nat) (s : St)
  : option (list listing) :=
  let query := strip text in
  if len query <? 2 then None
  else
    match fst (fst (gather sched [parse_wildberries query; parse_ozon query;
                                  parse_yandex_market query] s)) with
    | Ok results => Some (List.concat results)
    | Err _ => None
    end.

End Semantics.

Arguments step {St} respond {A} i p s.
Arguments run {St} respond {A} i p s.
Arguments run_schedule {St} respond {A} sched ts s.
Arguments finish {St} respond {A} i ts s.
Arguments run_all {St} respond {A} sched ts s.
Arguments gather {St} respond {A} sched ts s.
Arguments search_products {St} respond text sched s.
Arguments all_results {St} respond text sched s.
Arguments events {St} o.
Arguments raised {St} o.
Arguments final {St} o.

(** ** A site that answers the same whatever the interleaving *)

(** The pages as the sites serve them: whether a navigation or a wait
    fails, the cards a selector finds in document order, and what an
    expression gives on a card. *)
Record site : Type := Site
  { on_goto : pystr -> option exn;
    on_wait : pystr -> option exn;
    on_query_all : pystr -> result (list handle);
    on_eval : handle -> pystr -> pystr -> result jsval }.

Definition unit_result (o : option exn) : result unit :=
  match o with
  | Some e => Err e
  | None => Ok tt
  end.

Definition answer (w : site) {X} (c : call X) : result X :=
  match c in call T return result T with
  | goto u _ => unit_result (on_goto w u)
  | wait_for_selector sel _ => unit_result (on_wait w sel)
  | query_selector_all sel => on_query_all w sel
  | query_selector_eval card sel e => on_eval w card sel e
  end.

Definition site_respond (w : site) (X : Type) (c : call X) (s : unit)
  : result X * unit := (answer w c, s).

(** What one card contributes on such a site: the listing, or nothing
    when a field fails. *)
Definition site_item (w : site) (src : source) (card : handle) : list listing :=
  match on_eval w card (title_selector src) text_content with
  | Err _ => []
  | Ok title_ =>
    match on_eval w card (price_selector src) text_content with
    | Err _ => []
    | Ok price_raw =>
      match to_price src price_raw with
      | Err _ => []
      | Ok price_ =>
        match on_eval w card (link_selector src) el_href with
        | Err _ => []
        | Ok href =>
          match on_eval w card (py "img") el_src with
          | Err _ => []
          | Ok image_ =>
            match str_strip title_ with
            | Err _ => []
            | Ok stripped =>
              [ {| title := stripped; marketplace := label src;
                   price := price_; url := href; image := image_ |} ]
            end
          end
        end
      end
    end
  end.

(** What a source contributes on such a site: the first five cards in
    document order, each giving its listing or nothing. *)
Definition site_listings (w : site) (src : source) (query : pystr) : list listing :=
  match on_goto w (build_url src query) with
  | Some _ => []
  | None =>
    match on_wait w (result_selector src) with
    | Some _ => []
    | None =>
      match on_query_all w (result_selector src) with
      | Err _ => []
      | Ok cards => flat_map (site_item w src) (firstn 5 cards)
      end
    end
  end.

End Bot.

(** ** What the claims speak of *)

Module Spec.
Import PyStr PyFloat Price Prog Bot.

(** The value of a decimal digit character (0 for any other). *)
Definition digit_value (c : N) : N :=
  match todecimal c with
  | Some d => d
  | None => 0%N
  end.

(** The number that the characters of [s] form when read as decimal
    digits, in order. *)
Definition number_of (s : pystr) : N :=
  fold_left (fun a c => a * 10 + digit_value c)%N s 0%N.

(** The listing invariant as the specification words it: a title and a
    url that are not empty, a price that is not negative, a marketplace
    of the fixed set. *)
Definition valid_listing (it : listing) : Prop :=
  title it <> []
  /\ (exists u, url it = JStr u /\ u <> [])
  /\ is_nonnegative (price it) = true
  /\ In (marketplace it) [WILDBERRIES; OZON; YANDEX_MARKET].

(** UTF-8, for percent-encoding *)
Definition utf8_encode (c : N) : list N :=
  (if c <? 128 then [c]
   else if c <? 2048 then [192 + c / 64; 128 + c mod 64]
   else if c <? 65536
   then [224 + c / 4096; 128 + (c / 64) mod 64; 128 + c mod 64]
   else [240 + c / 262144; 128 + (c / 4096) mod 64; 128 + (c / 64) mod 64;
         128 + c mod 64])%N.

Definition hex_digit (n : N) : N := (if n <? 10 then 48 + n else 55 + n)%N.

(** The unreserved characters of RFC 3986: letters, digits, '-', '.',
    '_' and '~'. *)
Definition unreserved (b : N) : bool :=
  ((65 <=? b) && (b <=? 90) || (97 <=? b) && (b <=? 122)
   || (48 <=? b) && (b <=? 57)
   || (b =? 45) || (b =? 46) || (b =? 95) || (b =? 126))%N.

(** Percent-encoding of a query as the specification asks for it: every
    byte of the UTF-8 form that is not unreserved becomes '%' and two
    hexadecimal digits. *)
Definition spec_percent_encode (s : pystr) : pystr :=
  flat_map
    (fun c =>
       flat_map
         (fun b => if unreserved b then [b]
                   else [37%N; hex_digit (b / 16); hex_digit (b mod 16)])
         (utf8_encode c))
    s.

(** A site where Wildberries shows one card with a blank title, the
    price text "-5" and a link without address, and the other two sites
    show no result. *)
Definition blank_card_site : site :=
  {| on_goto := fun _ => None;
     on_wait := fun sel =>
       if PyStr.eqb sel (result_selector wildberries) then None
       else Some PlaywrightTimeoutError;
     on_query_all := fun _ => Ok [0%nat];
     on_eval := fun _ sel _ =>
       if PyStr.eqb sel (price_selector wildberries) then Ok (JStr (py "-5"))
       else if PyStr.eqb sel (title_selector wildberries) then Ok (JStr (py "   "))
       else Ok (JStr []) |}.

Definition blank_item : listing :=
  {| title := []; marketplace := WILDBERRIES; price := Finite true 5 0;
     url := JStr []; image := JStr [] |}.

(** A site where the search of Yandex.Market shows one card whose price
    element has the text [price_raw]; every other expression gives "x". *)
Definition price_card_site (price_raw : pystr) : site :=
  {| on_goto := fun _ => None;
     on_wait := fun _ => None;
     on_query_all := fun _ => Ok [0%nat];
     on_eval := fun _ sel _ =>
       if PyStr.eqb sel (price_selector yandex_market) then Ok (JStr price_raw)
       else Ok (JStr (py "x")) |}.

(** The listing of that card when its price is read as [f]. *)
Definition priced_item (f : pyfloat) : listing :=
  {| title := py "x"; marketplace := YANDEX_MARKET; price := f;
     url := JStr (py "x"); image := JStr (py "x") |}.

End Spec.

(** ** Reasoning about coroutines *)

Module Logic.
Import PyStr Prog Bot.

(** [wp p Q]: however the awaited calls are answered, [p] ends in a
    value that satisfies [Q]. *)
Fixpoint wp {R} (p : prog R) (Q : R -> Prop) : Prop :=
  match p with
  | Ret r => Q r
  | Log _ k => wp k Q
  | Await c k => forall x, wp (k x) Q
  end.

Definition wpm {S A} (m : pym S A) (s : S) (Q : result A -> S -> Prop) : Prop :=
  wp (m s) (fun rs => Q (fst rs) (snd rs)).

(** The value [p] ends in when the calls are answered by the site [w]. *)
Fixpoint eval (w : site) {R} (p : prog R) : R :=
  match p with
  | Ret r => r
  | Log _ k => eval w k
  | Await c k => eval w (k (answer w c))
  end.

(** What every listing an extractor appends satisfies: the label of its
    source, a stripped title, a price that the strategy of the source
    gave. *)
Definition item_ok (src : source) (it : listing) : Prop :=
  marketplace it = label src
  /\ (exists t, title it = strip t)
  /\ (exists raw, to_price src raw = Ok (price it)).

(** What an extractor returns: at most five listings, each [item_ok]. *)
Definition good (src : source) (items : list listing) : Prop :=
  (List.length items <= 5)%nat /\ Forall (item_ok src) items.

(** The tasks that [search_products] hands to [gather]. *)
Definition three (query : pystr) : list (prog (result (list listing))) :=
  [parse_wildberries query; parse_ozon query; parse_yandex_market query].

(** A task that ended by returning, not by raising. *)
Definition returned {A} (r : result A) : Prop := failure r = None.

(** A string that does not start with white space. *)
Definition hd_ok (s : pystr) : Prop :=
  match s with
  | [] => True
  | c :: _ => isspace c = false
  end.

Definition nonempty (s : pystr) : bool :=
  match s with
  | [] => false
  | _ :: _ => true
  end.

(** The ASCII digit that [transform] writes for a decimal digit. *)
Definition ascii_of (c : N) : N := (48 + Spec.digit_value c)%N.

(** The characters of a transformed digit string: ASCII digits and '?'. *)
Definition plain (c : N) : Prop :=
  PyFloat.is_ascii_digit c = true \/ c = 63%N.

(** A minus sign (45) or an ASCII digit. *)
Definition signed (c : N) : Prop :=
  c = 45%N \/ PyFloat.is_ascii_digit c = true.

End Logic.

(** ** Shapes of price texts *)

Module Shapes.
Import PyStr PyFloat.

(** A string that does not start with C white space. *)
Definition hd_c_ok (s : list N) : Prop :=
  match s with
  | [] => True
  | c :: _ => is_c_space c = false
  end.

(** An ASCII digit or the space U+0020: what a price with its digits in
    groups is made of. *)
Definition digit_or_space (c : N) : Prop :=
  is_ascii_digit c = true \/ c = 32%N.

(** The ASCII digits of a text, in order. *)
Definition ascii_digits (s : pystr) : pystr := filter is_ascii_digit s.

(** An ASCII digit or the point (46). *)
Definition digit_or_point (c : N) : Prop :=
  is_ascii_digit c = true \/ c = 46%N.

End Shapes.

(** ** What one task does, seen alone *)

Module Exec.
Import PyStr PyFloat Prog Bot.
Local Open Scope nat_scope.

(** Whether an event is one of task [i]. *)
Definition of_task (i : nat) (e : event) : bool :=
  match e with
  | Awaited j _ _ => Nat.eqb i j
  | Logged j _ => Nat.eqb i j
  | Done j _ => Nat.eqb i j
  | _ => false
  end.

(** The events of task [i] in a trace, in order. *)
Definition own (i : nat) (ev : list event) : list event := filter (of_task i) ev.

(** The log records written in a trace, in order. *)
Fixpoint logs_in (ev : list event) : list log_record :=
  match ev with
  | [] => []
  | Logged _ l :: r => l :: logs_in r
  | _ :: r => logs_in r
  end.

(** The number of awaited calls in a trace. *)
Fixpoint awaits_in (ev : list event) : nat :=
  match ev with
  | [] => O
  | Awaited _ _ _ :: r => S (awaits_in r)
  | _ :: r => awaits_in r
  end.

(** The answers a browser may give to a call: any of them, or the one
    of the site [w]. *)
Definition any_answer (X : Type) (c : call X) (x : result X) : Prop := True.

Definition answered_by (w : site) (X : Type) (c : call X) (x : result X) : Prop :=
  x = answer w c.

(** [exec ans i p h r]: run alone as task [i], with an answer that [ans]
    allows to each call, the coroutine [p] produces the events [h] and
    ends in [r]. *)
Inductive exec {A : Type} (ans : forall X, call X -> result X -> Prop) (i : nat)
  : prog (result A) -> list event -> result A -> Prop :=
| exec_ret (r : result A) : exec ans i (Ret r) [] r
| exec_log (l : log_record) (k : prog (result A)) (h : list event) (r : result A) :
    exec ans i k h r ->
    exec ans i (Log l k) (Logged i l :: done_event i k ++ h) r
| exec_await (X : Type) (c : call X) (k : result X -> prog (result A))
    (x : result X) (h : list event) (r : result A) :
    ans X c x ->
    exec ans i (k x) h r ->
    exec ans i (Await c k)
         (Awaited i (request_of c) (failure x) :: done_event i (k x) ++ h) r.

(** The records [p] writes when the calls are answered by the site [w],
    in order. *)
Fixpoint written (w : site) {R} (p : prog R) : list log_record :=
  match p with
  | Ret _ => []
  | Log l k => l :: written w k
  | Await c k => written w (k (answer w c))
  end.

(** [wpt p logs n Q]: however the calls are answered, [p] ends in a
    value [r], having written the records [logs'] after [logs] and
    awaited [n' - n] calls, with [Q r logs' n']. *)
Fixpoint wpt {R} (p : prog R) (logs : list log_record) (n : nat)
  (Q : R -> list log_record -> nat -> Prop) : Prop :=
  match p with
  | Ret r => Q r logs n
  | Log l k => wpt k (logs ++ [l]) n Q
  | Await c k => forall x, wpt (k x) logs (S n) Q
  end.

Definition wptm {S A} (m : pym S A) (s : S) (logs : list log_record) (n : nat)
  (Q : result A -> S -> list log_record -> nat -> Prop) : Prop :=
  wpt (m s) logs n (fun rs => Q (fst rs) (snd rs)).

(** The record an extractor writes for a card it gives up. *)
Definition item_warning (src : source) (l : log_record) : Prop :=
  exists e, l = LogRecord WARNING (item_error_text src) (Some e).

(** What an extractor did when it returns [items], has written [logs]
    and has awaited [n] calls: either the navigation, the wait or the
    query failed, which is one record and no listing; or each card gave a
    listing after four calls or a warning after at most four. *)
Definition report (src : source) (items : list listing)
  (logs : list log_record) (n : nat) : Prop :=
  (items = [] /\ 1 <= n <= 3
   /\ (logs = [LogRecord WARNING (timeout_text src) None]
       \/ exists e, e <> PlaywrightTimeoutError
                    /\ logs = [LogRecord ERROR (failed_text src) (Some e)]))
  \/ (Forall (item_warning src) logs
      /\ List.length items + List.length logs <= 5
      /\ 3 + 4 * List.length items + List.length logs <= n
      /\ n <= 3 + 4 * (List.length items + List.length logs)).

End Exec.

(** ** What an extractor writes on a site *)

Module SiteLog.
Import PyStr PyFloat Prog Bot.

(** How a card ends on the site [w]: with its listing, or with the
    exception of the first step of the item that raises. *)
Definition site_card (w : site) (src : source) (card : handle) : result listing :=
  match on_eval w card (title_selector src) text_content with
  | Err e => Err e
  | Ok title_ =>
    match on_eval w card (price_selector src) text_content with
    | Err e => Err e
    | Ok price_raw =>
      match to_price src price_raw with
      | Err e => Err e
      | Ok price_ =>
        match on_eval w card (link_selector src) el_href with
        | Err e => Err e
        | Ok href =>
          match on_eval w card (py "img") el_src with
          | Err e => Err e
          | Ok image_ =>
            match str_strip title_ with
            | Err e => Err e
            | Ok stripped =>
              Ok {| title := stripped; marketplace := label src;
                    price := price_; url := href; image := image_ |}
            end
          end
        end
      end
    end
  end.

(** The record of lines 37, 66 and 95 for a card that gives no listing. *)
Definition site_card_log (w : site) (src : source) (card : handle)
  : list log_record :=
  match site_card w src card with
  | Ok _ => []
  | Err e => [LogRecord WARNING (item_error_text src) (Some e)]
  end.

(** The record of the outer handlers: lines 39 and 41 and their
    likes. *)
Definition failure_record (src : source) (e : exn) : log_record :=
  match e with
  | PlaywrightTimeoutError => LogRecord WARNING (timeout_text src) None
  | _ => LogRecord ERROR (failed_text src) (Some e)
  end.

(** The records of a source on the site [w]: the one of the navigation,
    of the wait or of the query that fails; otherwise those of the first
    five cards, in the order of the cards. *)
Definition site_logs (w : site) (src : source) (query : pystr) : list log_record :=
  match on_goto w (build_url src query) with
  | Some e => [failure_record src e]
  | None =>
    match on_wait w (result_selector src) with
    | Some e => [failure_record src e]
    | None =>
      match on_query_all w (result_selector src) with
      | Err e => [failure_record src e]
      | Ok cards => flat_map (site_card_log w src) (firstn 5 cards)
      end
    end
  end.

End SiteLog.

(** ** Sites for the examples *)

Module Sites.
Import PyStr Prog Bot.

(** A site whose cards have a title, a price and a link but no image
    element: the evaluation on [img] raises. *)
Definition no_image_site : site :=
  {| on_goto := fun _ => None;
     on_wait := fun _ => None;
     on_query_all := fun _ => Ok [0%nat];
     on_eval := fun _ sel _ =>
       if PyStr.eqb sel (py "img") then Err PlaywrightError
       else Ok (JStr (py "5")) |}.

End Sites.

(** * Proofs *)

Set Implicit Arguments.

Module FloatFacts.
Import PyStr PyFloat Price Spec Logic.
Local Open Scope N_scope.

Lemma decimal_in_spec zs c d :
  decimal_in zs c = Some d ->
  exists z, In z zs /\ z <= c /\ c < z + 10 /\ d = c - z.
Proof.
  induction zs as [|z zs IH]; simpl; [discriminate|].
  destruct ((z <=? c) && (c <? z + 10)) eqn:E.
  - intros [= <-]. apply andb_prop in E as [E1 E2].
    apply N.leb_le in E1. apply N.ltb_lt in E2.
    exists z; auto.
  - intros H. destruct (IH H) as (z' & Hin & H'). exists z'; auto.
Qed.

Lemma decimal_zeros_split :
  Forall (fun z => z = 48 \/ 1632 <= z) decimal_zeros.
Proof.
  apply Forall_forall. intros z Hz.
  assert (H : forallb (fun z => (z =? 48) || (1632 <=? z)) decimal_zeros = true)
    by reflexivity.
  rewrite forallb_forall in H. specialize (H z Hz).
  apply orb_prop in H as [H|H]; [left; now apply N.eqb_eq | right; now apply N.leb_le].
Qed.

Lemma todecimal_cases c d :
  todecimal c = Some d ->
  d < 10 /\ ((is_ascii_digit c = true /\ c = 48 + d) \/ 1632 <= c).
Proof.
  intros H. apply decimal_in_spec in H as (z & Hin & H1 & H2 & ->).
  split; [lia|].
  pose proof decimal_zeros_split as F. rewrite Forall_forall in F.
  destruct (F z Hin) as [-> | Hz]; [left | right; lia].
  unfold is_ascii_digit. split; [|lia].
  apply andb_true_intro; split; apply N.leb_le; lia.
Qed.

Lemma is_ascii_digit_bounds c : is_ascii_digit c = true <-> 48 <= c <= 57.
Proof.
  unfold is_ascii_digit. rewrite andb_true_iff, !N.leb_le. tauto.
Qed.

Lemma todecimal_ascii_digit c :
  is_ascii_digit c = true -> todecimal c = Some (c - 48).
Proof.
  intros H. apply is_ascii_digit_bounds in H.
  unfold todecimal, decimal_zeros. cbn [decimal_in].
  replace ((48 <=? c) && (c <? 48 + 10)) with true; [reflexivity|].
  symmetry. apply andb_true_intro; split; [apply N.leb_le | apply N.ltb_lt]; lia.
Qed.

Lemma isspace_bounds c :
  isspace c = true ->
  9 <= c <= 13 \/ 28 <= c <= 32 \/ c = 133 \/ c = 160 \/ c = 5760
  \/ 8192 <= c <= 8202 \/ c = 8232 \/ c = 8233 \/ c = 8239 \/ c = 8287
  \/ c = 12288.
Proof.
  unfold isspace. rewrite !orb_true_iff, !andb_true_iff, !N.leb_le, !N.eqb_eq.
  tauto.
Qed.

Lemma decimal_zeros_no_space :
  forall z c, In z decimal_zeros -> z <= c -> c < z + 10 -> isspace c = false.
Proof.
  intros z c Hin H1 H2.
  destruct (isspace c) eqn:E; [|reflexivity]. exfalso.
  apply isspace_bounds in E.
  assert (H : forallb (fun z => ((z =? 48) || (1632 <=? z) && (z + 10 <=? 5760)
                                 || (5761 <=? z) && (z + 10 <=? 8192)
                                 || (12289 <=? z))) decimal_zeros = true)
    by reflexivity.
  rewrite forallb_forall in H. specialize (H z Hin).
  rewrite !orb_true_iff, !andb_true_iff, !N.leb_le, !N.eqb_eq in H.
  lia.
Qed.

Lemma todecimal_not_space c d : todecimal c = Some d -> isspace c = false.
Proof.
  intros H. apply decimal_in_spec in H as (z & Hin & H1 & H2 & _).
  eapply decimal_zeros_no_space; eauto.
Qed.

Lemma digit_only_range_spec c :
  existsb (fun r => (fst r <=? c) && (c <=? snd r)) digit_only_ranges = true ->
  isspace c = false /\ 178 <= c.
Proof.
  intros H. apply existsb_exists in H as ([lo hi] & Hin & H).
  simpl in H. apply andb_prop in H as [H1 H2].
  apply N.leb_le in H1. apply N.leb_le in H2.
  assert (F : forallb (fun r => (178 <=? fst r) && (fst r <=? snd r) &&
                        ((snd r <? 5760) || (5760 <? fst r) && (snd r <? 8192)
                         || (8287 <? fst r) && (snd r <? 12288)
                         || (12288 <? fst r))) digit_only_ranges = true)
    by reflexivity.
  rewrite forallb_forall in F. specialize (F _ Hin). simpl in F.
  rewrite !andb_true_iff, !orb_true_iff, !andb_true_iff, !N.leb_le, !N.ltb_lt in F.
  split; [|lia].
  destruct (isspace c) eqn:E; [|reflexivity]. exfalso.
  apply isspace_bounds in E. lia.
Qed.

Lemma digit_value_ascii c : is_ascii_digit c = true -> ascii_of c = c.
Proof.
  intros H. unfold ascii_of, digit_value. rewrite (todecimal_ascii_digit _ H).
  apply is_ascii_digit_bounds in H. lia.
Qed.

Lemma ascii_of_digit c : isdecimal c = true -> is_ascii_digit (ascii_of c) = true.
Proof.
  unfold isdecimal, ascii_of, digit_value.
  destruct (todecimal c) as [d|] eqn:E; [|discriminate]. intros _.
  apply todecimal_cases in E as [Hd _].
  apply is_ascii_digit_bounds. lia.
Qed.

Lemma isdigit_cases c :
  isdigit c = true ->
  (isdecimal c = true /\ (c < 127 -> is_ascii_digit c = true)
   /\ isspace c = false)
  \/ (isdecimal c = false /\ 178 <= c /\ isspace c = false).
Proof.
  unfold isdigit, isdecimal.
  destruct (todecimal c) as [d|] eqn:E; simpl.
  - intros _. left. split; [reflexivity|]. split.
    + intros Hc. apply todecimal_cases in E as [_ [[H _]|H]]; [exact H | lia].
    + eapply todecimal_not_space; eauto.
  - intros H. right. apply digit_only_range_spec in H as [H1 H2]. auto.
Qed.

Lemma transform_loop_digits s :
  Forall (fun c => isdigit c = true) s ->
  if forallb isdecimal s
  then transform_loop s = map ascii_of s
  else exists ds, Forall (fun c => is_ascii_digit c = true) ds
                  /\ transform_loop s = ds ++ [63].
Proof.
  induction 1 as [|c s Hc _ IH]; [reflexivity|].
  cbn [forallb transform_loop map].
  destruct (isdigit_cases _ Hc) as [(Hd & Ha & Hs) | (Hd & Hge & Hs)]; rewrite Hd.
  - cbn [andb].
    assert (Hhead : forall t,
      (if c <? 127 then c :: t
       else if isspace c then 32 :: t
       else match todecimal c with Some d => (48 + d) :: t | None => [63] end)
      = ascii_of c :: t).
    { intros t. destruct (c <? 127) eqn:Hlt.
      - apply N.ltb_lt in Hlt. now rewrite digit_value_ascii by auto.
      - rewrite Hs. unfold ascii_of, digit_value. unfold isdecimal in Hd.
        destruct (todecimal c); [reflexivity | discriminate]. }
    rewrite Hhead.
    destruct (forallb isdecimal s).
    + now rewrite IH.
    + destruct IH as (ds & Hds & ->). exists (ascii_of c :: ds). split; [|reflexivity].
      constructor; [now apply ascii_of_digit | exact Hds].
  - cbn [andb]. exists []. split; [constructor|].
    replace (c <? 127) with false by (symmetry; apply N.ltb_ge; lia).
    rewrite Hs. unfold isdecimal in Hd. now destruct (todecimal c).
Qed.

Lemma forallb_ascii_digits s :
  Forall (fun c => isdigit c = true) s ->
  forallb (fun c => c <? 128) s = true ->
  forallb isdecimal s = true /\ map ascii_of s = s.
Proof.
  induction 1 as [|c s Hc _ IH]; [auto|].
  cbn [forallb map]. intros H. apply andb_prop in H as [H1 H2].
  apply N.ltb_lt in H1. destruct (IH H2) as [IH1 IH2].
  destruct (isdigit_cases _ Hc) as [(Hd & Ha & Hs) | (Hd & Hge & Hs)].
  - rewrite Hd, IH1, IH2. split; [reflexivity|].
    destruct (N.lt_ge_cases c 127) as [Hlt|Hge].
    + now rewrite digit_value_ascii by auto.
    + assert (c = 127) as -> by lia. discriminate Hd.
  - lia.
Qed.

(** [transform] on a string of [isdigit] characters: the ASCII digits
    when all of them are decimal digits, and digits closed by '?'
    otherwise. *)
Lemma transform_digits s :
  Forall (fun c => isdigit c = true) s ->
  if forallb isdecimal s
  then transform s = map ascii_of s
  else exists ds, Forall (fun c => is_ascii_digit c = true) ds
                  /\ transform s = ds ++ [63].
Proof.
  intros H. unfold transform.
  destruct (forallb (fun c => c <? 128) s) eqn:E.
  - destruct (forallb_ascii_digits H E) as [-> ->]. reflexivity.
  - now apply transform_loop_digits.
Qed.

Ltac bool_false :=
  match goal with
  | |- ?b = false =>
    let E := fresh "E" in
    destruct b eqn:E; [exfalso | reflexivity];
    rewrite ?orb_true_iff, ?andb_true_iff, ?N.leb_le, ?N.ltb_lt, ?N.eqb_eq in E;
    lia
  end.

Lemma plain_facts c :
  plain c ->
  (c =? 95) = false /\ is_c_space c = false /\ (c =? 45) = false
  /\ (c =? 43) = false /\ (c =? 46) = false /\ (c =? 101) = false
  /\ (c =? 69) = false /\ tolower c = c /\ 48 <= c <= 63.
Proof.
  intros H.
  assert (Hb : 48 <= c <= 63).
  { destruct H as [H | ->]; [apply is_ascii_digit_bounds in H|]; lia. }
  unfold is_c_space, tolower.
  repeat split; try bool_false; try lia.
  replace ((65 <=? c) && (c <=? 90)) with false by (symmetry; bool_false).
  reflexivity.
Qed.

Lemma underscores_plain s : forall prev,
  (prev =? 95) = false -> Forall plain s -> underscores prev s = Some s.
Proof.
  induction s as [|c s IH]; intros prev Hp Hs; cbn [underscores].
  - now rewrite Hp.
  - inversion Hs as [|? ? Hc Hs']; subst.
    destruct (plain_facts Hc) as (H95 & _).
    rewrite H95, Hp. cbn [andb]. now rewrite IH.
Qed.

Lemma lstrip_c_plain s : Forall plain s -> lstrip_c s = s.
Proof.
  destruct 1 as [|c s Hc _]; [reflexivity|]. cbn [lstrip_c].
  destruct (plain_facts Hc) as (_ & -> & _). reflexivity.
Qed.

Lemma strip_c_plain s : Forall plain s -> strip_c s = s.
Proof.
  intros H. unfold strip_c. rewrite (lstrip_c_plain H).
  rewrite lstrip_c_plain by now apply Forall_rev.
  apply rev_involutive.
Qed.

Lemma eqb_head_neq c s d t : c <> d -> PyStr.eqb (c :: s) (d :: t) = false.
Proof.
  intros H. unfold PyStr.eqb.
  destruct (list_eq_dec N.eq_dec (c :: s) (d :: t)); congruence.
Qed.

Lemma parse_inf_or_nan_plain s :
  s <> [] -> Forall plain s -> parse_inf_or_nan s = None.
Proof.
  intros Hne Hs. destruct s as [|c s]; [congruence|].
  inversion Hs as [|? ? Hc _]; subst.
  destruct (plain_facts Hc) as (_ & _ & H45 & H43 & _ & _ & _ & Hl & Hb).
  unfold parse_inf_or_nan, take_sign. rewrite H45, H43. cbn [map]. rewrite Hl.
  change (py "inf") with (105 :: [110; 102]).
  change (py "infinity") with (105 :: [110; 102; 105; 110; 105; 116; 121]).
  change (py "nan") with (110 :: [97; 110]).
  rewrite !eqb_head_neq by lia. reflexivity.
Qed.

Lemma span_digits_app ds rest :
  Forall (fun c => is_ascii_digit c = true) ds ->
  match rest with [] => True | c :: _ => is_ascii_digit c = false end ->
  span_digits (ds ++ rest) = (ds, rest).
Proof.
  induction 1 as [|c ds Hc _ IH]; intros Hr; cbn [app span_digits].
  - destruct rest as [|c r]; [reflexivity|]. cbn [span_digits]. now rewrite Hr.
  - rewrite Hc, IH by exact Hr. reflexivity.
Qed.

Lemma strtod_digits ds :
  ds <> [] -> Forall (fun c => is_ascii_digit c = true) ds ->
  strtod ds = Some (Finite false (digits_value ds) 0).
Proof.
  intros Hne Hds. unfold strtod.
  destruct ds as [|c ds']; [congruence|].
  assert (Hc : plain c) by (left; now inversion Hds).
  destruct (plain_facts Hc) as (_ & _ & H45 & H43 & _).
  unfold take_sign. rewrite H45, H43.
  rewrite <- (app_nil_r (c :: ds')) at 1.
  rewrite span_digits_app by (exact Hds || exact I).
  rewrite app_nil_r. reflexivity.
Qed.

Lemma strtod_qmark ds :
  Forall (fun c => is_ascii_digit c = true) ds -> strtod (ds ++ [63]) = None.
Proof.
  intros Hds. unfold strtod.
  assert (Hsign : take_sign (ds ++ [63]) = (false, ds ++ [63])).
  { destruct ds as [|c ds']; [reflexivity|].
    assert (Hc : plain c) by (left; now inversion Hds).
    destruct (plain_facts Hc) as (_ & _ & H45 & H43 & _).
    cbn [app take_sign]. now rewrite H45, H43. }
  rewrite Hsign, span_digits_app by (exact Hds || reflexivity).
  cbn. rewrite app_nil_r. destruct ds; reflexivity.
Qed.

Lemma Forall_digit_plain ds :
  Forall (fun c => is_ascii_digit c = true) ds -> Forall plain ds.
Proof. apply Forall_impl. intros c H. now left. Qed.

(** [float] behind [transform], on a nonempty string of ASCII digits *)
Lemma float_ascii_digits ds :
  ds <> [] -> Forall (fun c => is_ascii_digit c = true) ds ->
  float_ascii ds = Some (Finite false (digits_value ds) 0).
Proof.
  intros Hne Hds. pose proof (Forall_digit_plain Hds) as Hp.
  unfold float_ascii.
  rewrite underscores_plain, strip_c_plain by (reflexivity || exact Hp).
  destruct ds as [|c ds'] eqn:E; [congruence|]. cbv iota.
  rewrite parse_inf_or_nan_plain, strtod_digits by assumption.
  reflexivity.
Qed.

(** ... and on digits closed by '?' *)
Lemma float_ascii_qmark ds :
  Forall (fun c => is_ascii_digit c = true) ds ->
  float_ascii (ds ++ [63]) = None.
Proof.
  intros Hds.
  assert (Hp : Forall plain (ds ++ [63])).
  { apply Forall_app. split; [now apply Forall_digit_plain|].
    constructor; [now right | constructor]. }
  assert (Hne : ds ++ [63] <> []) by now destruct ds.
  unfold float_ascii.
  rewrite underscores_plain, strip_c_plain by (reflexivity || exact Hp).
  destruct (ds ++ [63]) as [|c r] eqn:E; [congruence|]. cbv iota.
  rewrite parse_inf_or_nan_plain by assumption.
  rewrite <- E. now apply strtod_qmark.
Qed.

Lemma digits_value_ascii_of s : forall acc,
  fold_left (fun a d => a * 10 + (d - 48)) (map ascii_of s) acc
  = fold_left (fun a c => a * 10 + digit_value c) s acc.
Proof.
  induction s as [|c s IH]; intros acc; [reflexivity|].
  cbn [map fold_left]. rewrite IH. f_equal. unfold ascii_of. lia.
Qed.

(** [float] on a string of [isdigit] characters: it succeeds exactly
    when there is a character and all are decimal digits, with the number
    they form. *)
Lemma float_isdigit s :
  Forall (fun c => isdigit c = true) s ->
  float s = if nonempty s && forallb isdecimal s
            then Some (Finite false (number_of s) 0)
            else None.
Proof.
  intros H. destruct s as [|c s']; [reflexivity|].
  set (s := c :: s') in *. change (nonempty s) with true. cbn [andb].
  unfold float. pose proof (transform_digits H) as T.
  destruct (forallb isdecimal s) eqn:E.
  - rewrite T, float_ascii_digits.
    + unfold digits_value, number_of. now rewrite digits_value_ascii_of.
    + discriminate.
    + rewrite forallb_forall in E. apply Forall_forall.
      intros a Ha. apply in_map_iff in Ha as (b & <- & Hb).
      apply ascii_of_digit. now apply E.
  - destruct T as (ds & Hds & ->). now apply float_ascii_qmark.
Qed.

Lemma digits_only_isdigit raw : Forall (fun c => isdigit c = true) (digits_only raw).
Proof.
  apply Forall_forall. intros c Hc. unfold digits_only in Hc.
  now apply filter_In in Hc.
Qed.

Lemma digits_price_spec raw :
  digits_price raw =
  if nonempty (digits_only raw) && forallb isdecimal (digits_only raw)
  then Some (Finite false (number_of (digits_only raw)) 0)
  else None.
Proof. apply float_isdigit, digits_only_isdigit. Qed.

(** *** The decimal strategy on a signed integer text *)

Lemma replace_from_absent h t new s :
  Forall (fun c => (h =? c) = false) s -> replace_from (h :: t) new s 0 = s.
Proof.
  induction 1 as [|c s Hc _ IH]; [reflexivity|].
  cbn [replace_from startswith]. rewrite Hc. cbn [andb]. now rewrite IH.
Qed.

Lemma replace_absent h t new s :
  Forall (fun c => (h =? c) = false) s -> replace s (h :: t) new = s.
Proof. apply replace_from_absent. Qed.

Lemma signed_facts c :
  signed c ->
  (226 =? c) = false /\ (32 =? c) = false /\ (44 =? c) = false
  /\ isspace c = false /\ (c <? 128) = true /\ (c =? 95) = false
  /\ is_c_space c = false.
Proof.
  intros H. assert (Hb : 45 <= c <= 57).
  { destruct H as [-> | H]; [|apply is_ascii_digit_bounds in H]; lia. }
  unfold isspace, is_c_space.
  repeat split; try bool_false.
  apply N.ltb_lt. lia.
Qed.

Lemma Forall_signed_weaken (P : N -> Prop) s :
  (forall c, signed c -> P c) -> Forall signed s -> Forall P s.
Proof. intros H. apply Forall_impl. exact H. Qed.

Lemma strip_signed s : Forall signed s -> strip s = s.
Proof.
  intros H.
  assert (L : forall u, Forall signed u -> lstrip u = u).
  { intros u Hu. destruct Hu as [|c u Hc _]; [reflexivity|]. cbn [lstrip].
    destruct (signed_facts Hc) as (_ & _ & _ & -> & _). reflexivity. }
  unfold strip, rstrip. rewrite (L s H), L by now apply Forall_rev.
  apply rev_involutive.
Qed.

Lemma clean_decimal_signed s : Forall signed s -> clean_decimal s = s.
Proof.
  intros H. unfold clean_decimal, artifact_thin_space, artifact_currency.
  change (py " ") with [32]. change (py ",") with [44].
  assert (H226 : Forall (fun c => (226 =? c) = false) s).
  { revert H. apply Forall_impl. intros c Hc. now destruct (signed_facts Hc). }
  assert (H32 : Forall (fun c => (32 =? c) = false) s).
  { revert H. apply Forall_impl. intros c Hc.
    now destruct (signed_facts Hc) as (_ & ? & _). }
  assert (H44 : Forall (fun c => (44 =? c) = false) s).
  { revert H. apply Forall_impl. intros c Hc.
    now destruct (signed_facts Hc) as (_ & _ & ? & _). }
  rewrite (@replace_absent 226 [128; 137] [] s H226).
  rewrite (@replace_absent 226 [130] [] s H226).
  rewrite (@replace_absent 32 [] [] s H32).
  rewrite (@replace_absent 44 [] (py ".") s H44).
  now apply strip_signed.
Qed.

(** A text made of a minus sign and digits is parsed, by the decimal
    strategy, to the negative of the number the digits form. *)
Lemma decimal_price_negative d :
  d <> [] -> Forall (fun c => is_ascii_digit c = true) d ->
  decimal_price (45 :: d) = Some (Finite true (digits_value d) 0).
Proof.
  intros Hne Hd.
  assert (Hs : Forall signed (45 :: d)).
  { constructor; [now left|]. revert Hd. apply Forall_impl. intros c Hc. now right. }
  unfold decimal_price. rewrite (clean_decimal_signed Hs).
  unfold float, transform.
  replace (forallb (fun c => c <? 128) (45 :: d)) with true.
  2:{ symmetry. apply forallb_forall. intros c Hc.
      rewrite Forall_forall in Hs. now destruct (signed_facts (Hs c Hc)) as (_&_&_&_&?&_). }
  pose proof (Forall_digit_plain Hd) as Hp.
  unfold float_ascii. cbn [underscores N.eqb Pos.eqb andb negb].
  rewrite underscores_plain by (reflexivity || exact Hp). cbn [option_map].
  assert (Hstrip : strip_c (45 :: d) = 45 :: d).
  { unfold strip_c. change (lstrip_c (45 :: d)) with (45 :: d).
    assert (L : forall u, Forall signed u -> lstrip_c u = u).
    { intros u Hu. destruct Hu as [|c u Hc _]; [reflexivity|]. cbn [lstrip_c].
      destruct (signed_facts Hc) as (_ & _ & _ & _ & _ & _ & ->). reflexivity. }
    rewrite L by now apply Forall_rev. apply rev_involutive. }
  rewrite Hstrip.
  destruct d as [|c d']; [congruence|].
  assert (Hc : plain c) by now inversion Hp.
  destruct (plain_facts Hc) as (_ & _ & H45 & H43 & _ & _ & _ & Hl & Hb).
  unfold parse_inf_or_nan, strtod. cbn [take_sign N.eqb Pos.eqb map]. rewrite Hl.
  change (py "inf") with (105 :: [110; 102]).
  change (py "infinity") with (105 :: [110; 102; 105; 110; 105; 116; 121]).
  change (py "nan") with (110 :: [97; 110]).
  rewrite !eqb_head_neq by lia. cbn [orb].
  rewrite <- (app_nil_r (c :: d')) at 1.
  rewrite span_digits_app by (exact Hd || exact I).
  rewrite app_nil_r. reflexivity.
Qed.

End FloatFacts.

Module StripFacts.
Import PyStr Logic.

Lemma lstrip_hd_ok s : hd_ok (lstrip s).
Proof.
  induction s as [|c s IH]; cbn [lstrip]; [exact I|].
  destruct (isspace c) eqn:E; [exact IH | exact E].
Qed.

Lemma lstrip_id s : hd_ok s -> lstrip s = s.
Proof. destruct s as [|c s]; cbn; [reflexivity | now intros ->]. Qed.

Lemma lstrip_suffix s : exists p, s = p ++ lstrip s.
Proof.
  induction s as [|c s (p & IH)]; [now exists []|]. cbn [lstrip].
  destruct (isspace c); [|now exists []].
  exists (c :: p). cbn. now rewrite <- IH.
Qed.

Lemma rstrip_prefix s : exists q, s = rstrip s ++ q.
Proof.
  unfold rstrip. destruct (lstrip_suffix (rev s)) as (p & Hp).
  exists (rev p). rewrite <- rev_app_distr, <- Hp. now rewrite rev_involutive.
Qed.

Lemma rstrip_hd_ok s : hd_ok s -> hd_ok (rstrip s).
Proof.
  intros H. destruct (rstrip_prefix s) as (q & Hq).
  destruct (rstrip s) as [|c r]; [exact I|].
  rewrite Hq in H. exact H.
Qed.

Lemma rstrip_id s : hd_ok (rev s) -> rstrip s = s.
Proof. intros H. unfold rstrip. rewrite lstrip_id by exact H. apply rev_involutive. Qed.

(** A stripped string has no white space at either end, so stripping it
    again changes nothing. *)
Lemma strip_idempotent s : strip (strip s) = strip s.
Proof.
  assert (H1 : hd_ok (strip s)) by apply rstrip_hd_ok, lstrip_hd_ok.
  assert (H2 : hd_ok (rev (strip s))).
  { unfold strip, rstrip. rewrite rev_involutive. apply lstrip_hd_ok. }
  unfold strip at 1. rewrite lstrip_id by exact H1. now apply rstrip_id.
Qed.

End StripFacts.

Module ProgFacts.
Import PyStr Prog Bot Logic.

Lemma wp_mono R (p : prog R) (Q Q' : R -> Prop) :
  (forall r, Q r -> Q' r) -> wp p Q -> wp p Q'.
Proof.
  intros HQ. induction p as [r | l k IH | X c k IH]; cbn [wp]; auto.
Qed.

Lemma wp_pbind R T (p : prog R) (f : R -> prog T) (Q : T -> Prop) :
  wp p (fun r => wp (f r) Q) -> wp (pbind p f) Q.
Proof.
  induction p as [r | l k IH | X c k IH]; cbn [wp pbind]; auto.
Qed.

Section Rules.
Context {S : Type}.
Implicit Types (s : S).

Lemma wpm_mono A (m : pym S A) s (Q Q' : result A -> S -> Prop) :
  (forall r s', Q r s' -> Q' r s') -> wpm m s Q -> wpm m s Q'.
Proof. intros H. apply wp_mono. intros [r s']. apply H. Qed.

Lemma wpm_ret A (a : A) s (Q : result A -> S -> Prop) :
  Q (Ok a) s -> wpm (ret a) s Q.
Proof. exact (fun H => H). Qed.

Lemma wpm_lift A (r : result A) s (Q : result A -> S -> Prop) :
  Q r s -> wpm (lift r) s Q.
Proof. exact (fun H => H). Qed.

Lemma wpm_await X (c : call X) s (Q : result X -> S -> Prop) :
  (forall r, Q r s) -> wpm (await c) s Q.
Proof. exact (fun H => H). Qed.

Lemma wpm_log l s (Q : result unit -> S -> Prop) :
  Q (Ok tt) s -> wpm (log l) s Q.
Proof. exact (fun H => H). Qed.

Lemma wpm_get s (Q : result S -> S -> Prop) :
  Q (Ok s) s -> wpm get s Q.
Proof. exact (fun H => H). Qed.

Lemma wpm_modify (f : S -> S) s (Q : result unit -> S -> Prop) :
  Q (Ok tt) (f s) -> wpm (modify f) s Q.
Proof. exact (fun H => H). Qed.

Lemma wpm_bind A B (m : pym S A) (f : A -> pym S B) s (Q : result B -> S -> Prop) :
  wpm m s (fun r s' =>
    match r with
    | Ok a => wpm (f a) s' Q
    | Err e => Q (Err e) s'
    end) ->
  wpm (bind m f) s Q.
Proof.
  intros H. unfold wpm, bind. apply wp_pbind.
  revert H. apply wp_mono. intros [[a|e] s']; auto.
Qed.

Lemma wpm_try_except A (m : pym S A) (h : exn -> pym S A) s
      (Q : result A -> S -> Prop) :
  wpm m s (fun r s' =>
    match r with
    | Ok a => Q (Ok a) s'
    | Err e => wpm (h e) s' Q
    end) ->
  wpm (try_except m h) s Q.
Proof.
  intros H. unfold wpm, try_except. apply wp_pbind.
  revert H. apply wp_mono. intros [[a|e] s']; auto.
Qed.

(** A loop whose body never raises keeps an invariant over the local. *)
Lemma wpm_for_each A (body : A -> pym S unit) (I : list A -> S -> Prop) :
  (forall x done s, I done s ->
     wpm (body x) s (fun r s' => r = Ok tt /\ I (done ++ [x]) s')) ->
  forall l done s, I done s ->
    wpm (for_each l body) s (fun r s' => r = Ok tt /\ I (done ++ l) s').
Proof.
  intros Hbody. induction l as [|x l IH]; intros done s HI; cbn [for_each].
  - apply wpm_ret. rewrite app_nil_r. auto.
  - apply wpm_bind. eapply wpm_mono; [|apply Hbody; eassumption].
    intros r s' [-> HI']. cbn.
    eapply wpm_mono; [|apply IH; eassumption].
    cbn. intros r s'' [-> H]. rewrite <- app_assoc in H. auto.
Qed.

End Rules.

Lemma wp_function S A (s0 : S) (m : pym S A) (Q : result A -> Prop) :
  wpm m s0 (fun r _ => Q r) -> wp (function s0 m) Q.
Proof. intros H. unfold function. apply wp_pbind. exact H. Qed.

End ProgFacts.

Module ExtractorFacts.
Import PyStr PyFloat Price Prog Bot Logic ProgFacts.
Local Open Scope nat_scope.

Lemma parse_item_wp src card results :
  wpm (parse_item src card) results (fun r s' =>
    r = Ok tt /\
    (s' = results \/ exists it, s' = results ++ [it] /\ item_ok src it)).
Proof.
  unfold parse_item. apply wpm_try_except.
  apply wpm_bind, wpm_await. intros [title_|e]; [|now apply wpm_log; auto].
  apply wpm_bind, wpm_await. intros [price_raw|e]; [|now apply wpm_log; auto].
  apply wpm_bind, wpm_lift.
  destruct (to_price src price_raw) as [price_|e] eqn:Hp; [|now apply wpm_log; auto].
  apply wpm_bind, wpm_await. intros [href|e]; [|now apply wpm_log; auto].
  apply wpm_bind, wpm_await. intros [image_|e]; [|now apply wpm_log; auto].
  apply wpm_bind, wpm_lift.
  destruct (str_strip title_) as [stripped|e] eqn:Ht; [|now apply wpm_log; auto].
  apply wpm_modify. split; [reflexivity|]. right. eexists. split; [reflexivity|].
  repeat split; cbn.
  - destruct title_ as [|t]; [discriminate|]. injection Ht as <-. now exists t.
  - now exists price_raw.
Qed.

Lemma on_failure_wp src e results (Q : result unit -> list listing -> Prop) :
  Q (Ok tt) results -> wpm (on_failure src e) results Q.
Proof. intros H. destruct e; apply wpm_log; exact H. Qed.

(** The loop over the cards appends at most one listing per card. *)
Lemma for_cards_wp src cards :
  wpm (for_each cards (parse_item src)) [] (fun r s' =>
    r = Ok tt /\ List.length s' <= List.length cards /\ Forall (item_ok src) s').
Proof.
  pose (I := fun (done : list handle) (s : list listing) =>
               List.length s <= List.length done /\ Forall (item_ok src) s).
  eapply wpm_mono; [|apply (@wpm_for_each _ _ (parse_item src) I) with (done := [])].
  - cbn. intros r s' [-> [H1 H2]]. auto.
  - intros x done s [H1 H2]. eapply wpm_mono; [|apply parse_item_wp].
    cbn. intros r s' [-> [-> | (it & -> & Hit)]]; (split; [reflexivity|]); split.
    + rewrite length_app. cbn. lia.
    + exact H2.
    + rewrite !length_app. cbn. lia.
    + apply Forall_app. split; [exact H2 | now constructor].
  - split; [cbn; lia | constructor].
Qed.

(** An extractor returns, whatever the browser does, at most five
    listings, each made by its own rules. *)
Lemma parse_source_wp src query :
  wp (parse_source src query) (fun r =>
    exists items, r = Ok items /\ List.length items <= 5
                  /\ Forall (item_ok src) items).
Proof.
  unfold parse_source. apply wp_function.
  assert (Hend : forall results,
            List.length results <= 5 -> Forall (item_ok src) results ->
            wpm get results (fun r _ =>
              exists items, r = Ok items /\ List.length items <= 5
                            /\ Forall (item_ok src) items)).
  { intros results H1 H2. apply wpm_get. now exists results. }
  assert (Hfail : forall e (Q : result unit -> list listing -> Prop),
            (forall s', s' = [] -> Q (Ok tt) s') -> wpm (on_failure src e) [] Q).
  { intros e Q HQ. apply on_failure_wp. now apply HQ. }
  apply wpm_bind, wpm_try_except.
  apply wpm_bind, wpm_await.
  intros [[]|e]; [|apply Hfail; intros ? ->; apply Hend; [cbn; lia | constructor]].
  apply wpm_bind, wpm_await.
  intros [[]|e]; [|apply Hfail; intros ? ->; apply Hend; [cbn; lia | constructor]].
  apply wpm_bind, wpm_await.
  intros [cards|e]; [|apply Hfail; intros ? ->; apply Hend; [cbn; lia | constructor]].
  eapply wpm_mono; [|apply for_cards_wp].
  intros r s' (-> & H1 & H2). apply Hend; [|exact H2].
  etransitivity; [exact H1 | apply firstn_le_length].
Qed.

End ExtractorFacts.

Module SchedulerFacts.
Import PyStr Prog Bot Logic ProgFacts.
Local Open Scope nat_scope.

Lemma first_raised_app ev ev' :
  first_raised (ev ++ ev') =
  match first_raised ev with
  | Some e => Some e
  | None => first_raised ev'
  end.
Proof.
  induction ev as [|x ev IH]; [reflexivity|].
  destruct x as [| | | | | | |i [e|]]; cbn [app first_raised]; auto.
Qed.

Lemma Forall2_update {X Y} (R : X -> Y -> Prop) xs ys i y y' :
  Forall2 R xs ys -> nth_error ys i = Some y ->
  (forall x, R x y -> R x y') ->
  Forall2 R xs (update i y' ys).
Proof.
  intros H. revert i. induction H as [|x0 y0 xs ys H0 H IH]; intros i Hn Hy.
  - destruct i; discriminate.
  - destruct i as [|i]; cbn [update nth_error] in *.
    + injection Hn as ->. constructor; auto.
    + constructor; auto.
Qed.

Section Sound.
Variable St : Type.
Variable respond : forall X, call X -> St -> result X * St.
Context {A : Type}.
Implicit Types (p : prog (result A)) (s : St) (Q : result A -> Prop).

Lemma done_event_quiet i p :
  wp p returned -> first_raised (done_event i p) = None.
Proof. destruct p as [r| |]; cbn; [|reflexivity..]. intros ->. reflexivity. Qed.

Lemma step_wp i p s Q : wp p Q -> wp (fst (fst (step respond i p s))) Q.
Proof.
  destruct p as [r | l k | X c k]; cbn [step wp]; auto.
  intros H. destruct (respond c s) as [x s']. cbn. apply H.
Qed.

Lemma step_quiet i p s :
  wp p returned -> first_raised (snd (step respond i p s)) = None.
Proof.
  destruct p as [r | l k | X c k]; cbn [step wp]; [reflexivity | |].
  - intros H. cbn. now apply done_event_quiet.
  - intros H. destruct (respond c s) as [x s']. cbn. now apply done_event_quiet.
Qed.

Lemma run_wp i p : forall s Q, wp p Q -> Q (fst (fst (run respond i p s))).
Proof.
  induction p as [r | l k IH | X c k IH]; intros s Q; cbn [run wp]; auto.
  - intros H. specialize (IH s Q H).
    destruct (run respond i k s) as [[r s'] ev]. exact IH.
  - intros H. destruct (respond c s) as [x s1].
    specialize (IH x s1 Q (H x)).
    destruct (run respond i (k x) s1) as [[r s'] ev]. exact IH.
Qed.

Lemma run_quiet i p : forall s,
  wp p returned -> first_raised (snd (run respond i p s)) = None.
Proof.
  induction p as [r | l k IH | X c k IH]; intros s; cbn [run wp]; [reflexivity | |].
  - intros H. pose proof (run_wp i k s _ H) as Hr. specialize (IH s H).
    destruct (run respond i k s) as [[r s'] ev]. cbn in *.
    destruct (is_ret k); [|exact IH]. cbn. unfold returned in Hr. now rewrite Hr.
  - intros H. destruct (respond c s) as [x s1].
    pose proof (run_wp i (k x) s1 _ (H x)) as Hr. specialize (IH x s1 (H x)).
    destruct (run respond i (k x) s1) as [[r s'] ev]. cbn in *.
    destruct (is_ret (k x)); [|exact IH]. cbn. unfold returned in Hr. now rewrite Hr.
Qed.

Lemma run_schedule_wp sched : forall (Qs : list (result A -> Prop)) ts s,
  Forall2 (fun Q p => wp p Q) Qs ts ->
  Forall2 (fun Q p => wp p Q) Qs (fst (fst (run_schedule respond sched ts s))).
Proof.
  induction sched as [|i sched IH]; intros Qs ts s H; cbn [run_schedule]; [exact H|].
  destruct (nth_error ts i) as [p|] eqn:Hn; [|now apply IH].
  pose proof (fun Q => @step_wp i p s Q) as Hstep.
  destruct (step respond i p s) as [[p' s1] ev]. cbn in Hstep.
  assert (H' : Forall2 (fun Q p => wp p Q) Qs (update i p' ts))
    by (eapply Forall2_update; eauto).
  specialize (IH Qs (update i p' ts) s1 H').
  destruct (run_schedule respond sched (update i p' ts) s1) as [[ts' s'] evs].
  exact IH.
Qed.

Lemma Forall_update {X} (P : X -> Prop) xs i x :
  Forall P xs -> P x -> Forall P (update i x xs).
Proof.
  intros H Hx. revert i. induction H as [|x0 xs H0 H IH]; intros i.
  - destruct i; constructor.
  - destruct i; cbn [update]; constructor; auto.
Qed.

Lemma run_schedule_returned sched : forall ts s,
  Forall (fun p => wp p returned) ts ->
  Forall (fun p => wp p returned) (fst (fst (run_schedule respond sched ts s)))
  /\ first_raised (snd (run_schedule respond sched ts s)) = None.
Proof.
  induction sched as [|i sched IH]; intros ts s H; cbn [run_schedule]; [now split|].
  destruct (nth_error ts i) as [p|] eqn:Hn; [|now apply IH].
  assert (Hp : wp p returned).
  { rewrite Forall_forall in H. eapply H, nth_error_In, Hn. }
  pose proof (step_wp i p s _ Hp) as Hstep.
  pose proof (step_quiet i p s Hp) as Hq.
  destruct (step respond i p s) as [[p' s1] ev]. cbn in Hstep, Hq.
  assert (H' : Forall (fun p => wp p returned) (update i p' ts))
    by (apply Forall_update; assumption).
  specialize (IH (update i p' ts) s1 H').
  destruct (run_schedule respond sched (update i p' ts) s1) as [[ts' s'] evs].
  cbn in *. destruct IH as [IH1 IH2]. split; [exact IH1|].
  now rewrite first_raised_app, Hq.
Qed.

Lemma finish_wp : forall (Qs : list (result A -> Prop)) ts i s,
  Forall2 (fun Q p => wp p Q) Qs ts ->
  Forall2 (fun Q r => Q r) Qs (fst (fst (finish respond i ts s))).
Proof.
  intros Qs ts i s H. revert i s.
  induction H as [|Q p Qs ts Hp H IH]; intros i s; cbn [finish]; [constructor|].
  pose proof (run_wp i p s Q Hp) as Hr.
  destruct (run respond i p s) as [[r s1] ev].
  specialize (IH (S i) s1).
  destruct (finish respond (S i) ts s1) as [[rs s'] evs].
  cbn in *. now constructor.
Qed.

Lemma finish_quiet : forall ts i s,
  Forall (fun p => wp p returned) ts ->
  first_raised (snd (finish respond i ts s)) = None.
Proof.
  intros ts i s H. revert i s.
  induction H as [|p ts Hp H IH]; intros i s; cbn [finish]; [reflexivity|].
  pose proof (run_quiet i p s Hp) as Hq.
  destruct (run respond i p s) as [[r s1] ev].
  specialize (IH (S i) s1).
  destruct (finish respond (S i) ts s1) as [[rs s'] evs].
  cbn in *. now rewrite first_raised_app, Hq.
Qed.

Lemma run_all_wp (Qs : list (result A -> Prop)) sched ts s :
  Forall2 (fun Q p => wp p Q) Qs ts ->
  Forall2 (fun Q r => Q r) Qs (fst (fst (run_all respond sched ts s))).
Proof.
  intros H. unfold run_all.
  pose proof (run_schedule_wp sched s H) as H1.
  destruct (run_schedule respond sched ts s) as [[ts' s1] ev].
  cbn [fst snd] in H1.
  pose proof (finish_wp 0 s1 H1) as H2.
  destruct (finish respond 0 ts' s1) as [[rs s'] evs]. exact H2.
Qed.

Lemma run_all_quiet sched ts s :
  Forall (fun p => wp p returned) ts ->
  first_raised (snd (run_all respond sched ts s)) = None.
Proof.
  intros H. unfold run_all.
  destruct (run_schedule_returned sched s H) as [H1 H2].
  destruct (run_schedule respond sched ts s) as [[ts' s1] ev].
  cbn [fst snd] in H1, H2.
  pose proof (finish_quiet 0 s1 H1) as H3.
  destruct (finish respond 0 ts' s1) as [[rs s'] evs].
  cbn in *. now rewrite first_raised_app, H2.
Qed.

Lemma initial_quiet ts :
  Forall (fun p => wp p returned) ts ->
  first_raised (flat_map (done_event 0) ts) = None.
Proof.
  induction 1 as [|p ts Hp _ IH]; [reflexivity|].
  cbn [flat_map]. now rewrite first_raised_app, done_event_quiet.
Qed.

(** When no task can raise, [gather] returns what each task returned, in
    the order of the tasks. *)
Lemma gather_sound (Ps : list (A -> Prop)) sched ts s :
  Forall2 (fun P p => wp p (fun r => exists a, r = Ok a /\ P a)) Ps ts ->
  exists vals,
    fst (fst (gather respond sched ts s)) = Ok vals
    /\ fst (fst (run_all respond sched ts s)) = map Ok vals
    /\ Forall2 (fun P a => P a) Ps vals.
Proof.
  intros H.
  assert (Hret : Forall (fun p => wp p returned) ts).
  { clear -H. induction H as [|P p Ps ts Hp _ IH]; constructor; [|exact IH].
    revert Hp. apply wp_mono. intros r (a & -> & _). reflexivity. }
  assert (H' : Forall2 (fun Q p => wp p Q)
                 (map (fun P r => exists a, r = Ok a /\ P a) Ps) ts).
  { clear -H. induction H; cbn; constructor; auto. }
  pose proof (run_all_wp sched s H') as Hrs.
  pose proof (run_all_quiet sched s Hret) as Hq.
  pose proof (initial_quiet Hret) as Hi.
  unfold gather. destruct (run_all respond sched ts s) as [[rs s'] ev].
  cbn in Hrs, Hq |- *. rewrite first_raised_app, Hi, Hq. cbn.
  clear -Hrs. revert rs Hrs. induction Ps as [|P Ps IH]; intros rs Hrs.
  - inversion Hrs; subst. exists []. repeat split; constructor.
  - cbn [map] in Hrs. inversion Hrs as [|? r ? rs' Hr Hrest]; subst.
    destruct Hr as (a & -> & Ha).
    destruct (IH rs' Hrest) as (vals & Hv & Hm & HF).
    exists (a :: vals). cbn in *. injection Hv as Hv.
    repeat split; [now rewrite Hv | now rewrite Hm | now constructor].
Qed.

End Sound.

End SchedulerFacts.

Module TraceFacts.
Import PyStr Prog Bot Logic ProgFacts.
Local Open Scope nat_scope.

Lemma nth_error_update_other {X} (l : list X) i j x :
  i <> j -> nth_error (update i x l) j = nth_error l j.
Proof.
  revert i j. induction l as [|y l IH]; intros i j H.
  - destruct i; reflexivity.
  - destruct i as [|i], j as [|j]; cbn [update nth_error]; try congruence.
    apply IH. congruence.
Qed.

Section First.
Variable St : Type.
Variable respond : forall X, call X -> St -> result X * St.
Context {A X : Type}.
Variable c : call X.
Variable k : result X -> prog (result A).

(** A task that starts with an awaited call gets the call answered,
    whatever the schedule: during it or when the tasks are finished. *)
Lemma run_schedule_first sched : forall ts s i,
  nth_error ts i = Some (Await c k) ->
  (exists f, In (Awaited i (request_of c) f) (snd (run_schedule respond sched ts s)))
  \/ nth_error (fst (fst (run_schedule respond sched ts s))) i = Some (Await c k).
Proof.
  induction sched as [|j sched IH]; intros ts s i Hi; cbn [run_schedule].
  - now right.
  - destruct (nth_error ts j) as [p|] eqn:Hj; [|now apply IH].
    destruct (Nat.eq_dec j i) as [->|Hne].
    + rewrite Hi in Hj. injection Hj as <-. cbn [step].
      destruct (respond c s) as [x s1].
      destruct (run_schedule respond sched (update i (k x) ts) s1) as [[ts' s'] evs].
      left. exists (failure x). cbn. now left.
    + destruct (step respond j p s) as [[p' s1] ev].
      specialize (IH (update j p' ts) s1 i).
      rewrite nth_error_update_other in IH by exact Hne.
      specialize (IH Hi).
      destruct (run_schedule respond sched (update j p' ts) s1) as [[ts' s'] evs].
      cbn in *. destruct IH as [(f & Hf) | IH]; [left | now right].
      exists f. apply in_or_app. now right.
Qed.

Lemma finish_first : forall ts j i s,
  nth_error ts j = Some (Await c k) ->
  exists f, In (Awaited (i + j) (request_of c) f) (snd (finish respond i ts s)).
Proof.
  induction ts as [|p ts IH]; intros j i s Hj; [destruct j; discriminate|].
  cbn [finish]. destruct j as [|j]; cbn [nth_error] in Hj.
  - injection Hj as ->. cbn [run]. destruct (respond c s) as [x s1].
    destruct (run respond i (k x) s1) as [[r s2] ev].
    destruct (finish respond (S i) ts s2) as [[rs s'] evs].
    exists (failure x). cbn. left. now rewrite Nat.add_0_r.
  - destruct (run respond i p s) as [[r s1] ev].
    destruct (IH j (S i) s1 Hj) as (f & Hf).
    destruct (finish respond (S i) ts s1) as [[rs s'] evs].
    exists f. cbn in *. apply in_or_app. right.
    now rewrite Nat.add_succ_r.
Qed.

Lemma run_all_first sched ts s i :
  nth_error ts i = Some (Await c k) ->
  exists f, In (Awaited i (request_of c) f) (snd (run_all respond sched ts s)).
Proof.
  intros Hi. unfold run_all.
  destruct (run_schedule_first sched ts s i Hi) as [(f & Hf) | H].
  - destruct (run_schedule respond sched ts s) as [[ts' s1] ev].
    destruct (finish respond 0 ts' s1) as [[rs s'] evs].
    exists f. cbn in *. apply in_or_app. now left.
  - destruct (run_schedule respond sched ts s) as [[ts' s1] ev].
    cbn [fst snd] in H.
    destruct (finish_first ts' i 0 s1 H) as (f & Hf).
    destruct (finish respond 0 ts' s1) as [[rs s'] evs].
    exists f. cbn in *. apply in_or_app. now right.
Qed.

Lemma gather_events sched (ts : list (prog (result A))) s :
  snd (gather respond sched ts s) = snd (run_all respond sched ts s).
Proof.
  unfold gather. destruct (run_all respond sched ts s) as [[rs s'] ev].
  now destruct (first_raised _).
Qed.

End First.

End TraceFacts.

Module SiteFacts.
Import PyStr Prog Bot Logic ProgFacts.
Local Open Scope nat_scope.

Section OnSite.
Variable w : site.

Lemma eval_pbind R T (p : prog R) (f : R -> prog T) :
  eval w (pbind p f) = eval w (f (eval w p)).
Proof. induction p as [r | l k IH | X c k IH]; cbn [pbind eval]; auto. Qed.

Lemma step_eval A i (p : prog (result A)) s :
  eval w (fst (fst (step (site_respond w) i p s))) = eval w p.
Proof. destruct p; reflexivity. Qed.

Lemma run_eval A i (p : prog (result A)) : forall s,
  fst (fst (run (site_respond w) i p s)) = eval w p.
Proof.
  induction p as [r | l k IH | X c k IH]; intros s; cbn [run eval]; [reflexivity | |].
  - specialize (IH s). now destruct (run (site_respond w) i k s) as [[r s'] ev].
  - unfold site_respond at 1. specialize (IH (answer w c) s).
    now destruct (run (site_respond w) i (k (answer w c)) s) as [[r s'] ev].
Qed.

Lemma map_update_same {X Y} (f : X -> Y) (l : list X) i x y :
  nth_error l i = Some x -> f y = f x -> map f (update i y l) = map f l.
Proof.
  revert i. induction l as [|z l IH]; intros i Hi Hf; [destruct i; discriminate|].
  destruct i as [|i]; cbn [update map nth_error] in *.
  - injection Hi as ->. now rewrite Hf.
  - f_equal. now apply IH.
Qed.

Lemma run_schedule_eval A sched : forall (ts : list (prog (result A))) s,
  map (eval w) (fst (fst (run_schedule (site_respond w) sched ts s)))
  = map (eval w) ts.
Proof.
  induction sched as [|i sched IH]; intros ts s; cbn [run_schedule]; [reflexivity|].
  destruct (nth_error ts i) as [p|] eqn:Hi; [|apply IH].
  pose proof (step_eval i p s) as Hs.
  destruct (step (site_respond w) i p s) as [[p' s1] ev]. cbn [fst] in Hs.
  specialize (IH (update i p' ts) s1).
  destruct (run_schedule (site_respond w) sched (update i p' ts) s1) as [[ts' s'] evs].
  cbn [fst] in *. rewrite IH. eapply map_update_same; eauto.
Qed.

Lemma finish_eval A : forall (ts : list (prog (result A))) i s,
  fst (fst (finish (site_respond w) i ts s)) = map (eval w) ts.
Proof.
  induction ts as [|p ts IH]; intros i s; cbn [finish map]; [reflexivity|].
  pose proof (run_eval i p s) as Hr.
  destruct (run (site_respond w) i p s) as [[r s1] ev].
  specialize (IH (S i) s1).
  destruct (finish (site_respond w) (S i) ts s1) as [[rs s'] evs].
  cbn [fst] in *. now rewrite Hr, IH.
Qed.

(** On such a site the tasks end the same under every schedule. *)
Lemma run_all_eval A sched (ts : list (prog (result A))) s :
  fst (fst (run_all (site_respond w) sched ts s)) = map (eval w) ts.
Proof.
  unfold run_all. pose proof (run_schedule_eval sched ts s) as H1.
  destruct (run_schedule (site_respond w) sched ts s) as [[ts' s1] ev].
  pose proof (finish_eval ts' 0 s1) as H2.
  destruct (finish (site_respond w) 0 ts' s1) as [[rs s'] evs].
  cbn [fst] in *. now rewrite H2, H1.
Qed.

Lemma eval_bind S A B (m : pym S A) (f : A -> pym S B) s :
  eval w (bind m f s) =
  match eval w (m s) with
  | (Ok a, s') => eval w (f a s')
  | (Err e, s') => (Err e, s')
  end.
Proof.
  unfold bind. rewrite eval_pbind.
  now destruct (eval w (m s)) as [[a|e] s'].
Qed.

Lemma eval_try_except S A (m : pym S A) (h : exn -> pym S A) s :
  eval w (try_except m h s) =
  match eval w (m s) with
  | (Ok a, s') => (Ok a, s')
  | (Err e, s') => eval w (h e s')
  end.
Proof.
  unfold try_except. rewrite eval_pbind.
  now destruct (eval w (m s)) as [[a|e] s'].
Qed.

Lemma eval_await S X (c : call X) (s : S) :
  eval w (await c s) = (answer w c, s).
Proof. reflexivity. Qed.

Lemma eval_on_failure src e results :
  eval w (on_failure src e results) = (Ok tt, results).
Proof. now destruct e. Qed.

Lemma eval_parse_item src card results :
  eval w (parse_item src card results)
  = (Ok tt, results ++ site_item w src card).
Proof.
  unfold parse_item, site_item.
  rewrite eval_try_except, eval_bind, eval_await. cbn [answer].
  destruct (on_eval w card (title_selector src) text_content) as [title_|e];
    [|cbn; now rewrite app_nil_r].
  rewrite eval_bind, eval_await. cbn [answer].
  destruct (on_eval w card (price_selector src) text_content) as [price_raw|e];
    [|cbn; now rewrite app_nil_r].
  rewrite eval_bind. unfold lift at 1. cbn [eval].
  destruct (to_price src price_raw) as [price_|e]; [|cbn; now rewrite app_nil_r].
  rewrite eval_bind, eval_await. cbn [answer].
  destruct (on_eval w card (link_selector src) el_href) as [href|e];
    [|cbn; now rewrite app_nil_r].
  rewrite eval_bind, eval_await. cbn [answer].
  destruct (on_eval w card (py "img") el_src) as [image_|e];
    [|cbn; now rewrite app_nil_r].
  rewrite eval_bind. unfold lift at 1. cbn [eval].
  destruct (str_strip title_) as [stripped|e]; [reflexivity | cbn; now rewrite app_nil_r].
Qed.

Lemma eval_for_cards src cards : forall results,
  eval w (for_each cards (parse_item src) results)
  = (Ok tt, results ++ flat_map (site_item w src) cards).
Proof.
  induction cards as [|card cards IH]; intros results; cbn [for_each flat_map].
  - cbn. now rewrite app_nil_r.
  - rewrite eval_bind, eval_parse_item. now rewrite IH, app_assoc.
Qed.

(** On such a site an extractor returns the listings of the first five
    cards, in the order of the cards. *)
Lemma eval_parse_source src query :
  eval w (parse_source src query) = Ok (site_listings w src query).
Proof.
  unfold parse_source, site_listings, function.
  rewrite eval_pbind, eval_bind, eval_try_except, eval_bind, eval_await.
  cbn [answer].
  destruct (on_goto w (build_url src query)) as [e|]; cbn [unit_result].
  { now rewrite eval_on_failure. }
  rewrite eval_bind, eval_await. cbn [answer].
  destruct (on_wait w (result_selector src)) as [e|]; cbn [unit_result].
  { now rewrite eval_on_failure. }
  rewrite eval_bind, eval_await. cbn [answer].
  destruct (on_query_all w (result_selector src)) as [cards|e].
  { now rewrite eval_for_cards. }
  now rewrite eval_on_failure.
Qed.

End OnSite.

End SiteFacts.

Module SearchFacts.
Import PyStr PyFloat Price Prog Bot Logic Spec.
Import ProgFacts ExtractorFacts SchedulerFacts TraceFacts SiteFacts.
Local Open Scope nat_scope.

Lemma parse_source_starts src query :
  exists k, parse_source src query = Await (goto (build_url src query) 15000) k.
Proof. eexists. reflexivity. Qed.

Lemma parse_source_goes_to src query :
  exists k,
    parse_source src query = Await (goto (search_url src ++ query) 15000) k.
Proof. eexists. reflexivity. Qed.

Section AnyBrowser.
Variable St : Type.
Variable respond : forall X, call X -> St -> result X * St.

(** The three extractors under [gather]: each returns, and [gather]
    gives their lists in the order of the tasks. *)
Lemma three_sound query sched s :
  exists wb oz ym,
    fst (fst (run_all respond sched (three query) s)) = [Ok wb; Ok oz; Ok ym]
    /\ fst (fst (gather respond sched (three query) s)) = Ok [wb; oz; ym]
    /\ good wildberries wb /\ good ozon oz /\ good yandex_market ym.
Proof.
  destruct (@gather_sound St respond _
              [good wildberries; good ozon; good yandex_market]
              sched (three query) s) as (vals & Hg & Hr & HF).
  { repeat constructor; apply parse_source_wp. }
  inversion HF as [|? wb ? l1 Hwb HF1]; subst.
  inversion HF1 as [|? oz ? l2 Hoz HF2]; subst.
  inversion HF2 as [|? ym ? l3 Hym HF3]; subst.
  inversion HF3; subst.
  exists wb, oz, ym. auto.
Qed.

Lemma run_alone src query i s :
  exists items,
    fst (fst (run respond i (parse_source src query) s)) = Ok items
    /\ good src items.
Proof.
  exact (@run_wp St respond _ i _ s _ (parse_source_wp src query)).
Qed.

Lemma all_results_split text sched s :
  if len (strip text) <? 2
  then all_results respond text sched s = None
  else exists wb oz ym,
         all_results respond text sched s = Some (wb ++ oz ++ ym)
         /\ good wildberries wb /\ good ozon oz /\ good yandex_market ym.
Proof.
  unfold all_results. destruct (len (strip text) <? 2); [reflexivity|].
  destruct (three_sound (strip text) sched s) as (wb & oz & ym & _ & Hg & H).
  unfold three in Hg. rewrite Hg. exists wb, oz, ym.
  cbn [List.concat]. now rewrite app_nil_r.
Qed.

Lemma search_products_opened text sched s :
  (len (strip text) <? 2) = false ->
  exists rest,
    events (search_products respond text sched s)
    = ReplyText (searching (strip text)) :: Launch :: NewPage :: rest
    /\ forall i src, nth_error [wildberries; ozon; yandex_market] i = Some src ->
         exists f, In (Awaited i (ReqGoto (build_url src (strip text))) f) rest.
Proof.
  intros Hlen. unfold search_products. rewrite Hlen.
  destruct (three_sound (strip text) sched s) as (wb & oz & ym & _ & Hg & _).
  unfold three in Hg.
  assert (Hev : forall i src,
            nth_error [wildberries; ozon; yandex_market] i = Some src ->
            exists f, In (Awaited i (ReqGoto (build_url src (strip text))) f)
                         (snd (gather respond sched (three (strip text)) s))).
  { intros i src Hi. rewrite gather_events.
    destruct (parse_source_starts src (strip text)) as (k & Hk).
    apply (run_all_first respond (c := goto (build_url src (strip text)) 15000) (k := k)).
    destruct i as [|[|[|i]]]; cbn in Hi |- *; try injection Hi as <-;
      try exact (f_equal Some Hk); destruct i; discriminate. }
  unfold three in Hev.
  destruct (gather respond sched _ s) as [[res s'] ev].
  cbn [fst snd] in Hg, Hev. subst res. cbn [events].
  eexists. split; [reflexivity|].
  intros i src Hi. destruct (Hev i src Hi) as (f & Hf).
  exists f. apply in_or_app. now left.
Qed.

End AnyBrowser.

(** On a site that answers the same under every interleaving, the
    aggregate is the listings of the three sources, one source after the
    other. *)
Lemma all_results_on_site w text sched :
  all_results (site_respond w) text sched tt =
  if len (strip text) <? 2 then None
  else Some (site_listings w wildberries (strip text)
             ++ site_listings w ozon (strip text)
             ++ site_listings w yandex_market (strip text)).
Proof.
  unfold all_results. destruct (len (strip text) <? 2); [reflexivity|].
  destruct (three_sound (site_respond w) (strip text) sched tt)
    as (wb & oz & ym & Hr & Hg & _).
  rewrite run_all_eval in Hr. unfold three in Hr, Hg. cbn [map] in Hr.
  unfold parse_wildberries, parse_ozon, parse_yandex_market in Hr.
  rewrite !eval_parse_source in Hr. injection Hr as -> -> ->.
  rewrite Hg. cbn [List.concat]. now rewrite app_nil_r.
Qed.

End SearchFacts.

Module Claims.
Import PyStr PyFloat Price Prog Bot Logic Spec.
Import FloatFacts StripFacts ProgFacts ExtractorFacts SchedulerFacts.
Import TraceFacts SiteFacts SearchFacts.
Local Open Scope nat_scope.

(** C1. Whatever the browser answers to any call (a timeout, another
    error, no card, a failing field), each of the three extractors
    returns a list and raises nothing; so [gather] returns the three
    lists, in the order of the tasks.  On a site where the navigation,
    the wait or the query of a source fails, that source gives no listing
    and the aggregate is the listings of the three sources one after the
    other, so it keeps those of the other two. *)
Theorem extractors_absorb_failures :
  forall (St : Type) (respond : forall X, call X -> St -> result X * St)
         (query text : pystr) (sched : list nat) (i : nat) (s : St),
    (exists items, fst (fst (run respond i (parse_wildberries query) s)) = Ok items)
    /\ (exists items, fst (fst (run respond i (parse_ozon query) s)) = Ok items)
    /\ (exists items,
          fst (fst (run respond i (parse_yandex_market query) s)) = Ok items)
    /\ (exists wb oz ym,
          fst (fst (run_all respond sched
                      [parse_wildberries query; parse_ozon query;
                       parse_yandex_market query] s))
          = [Ok wb; Ok oz; Ok ym]
          /\ fst (fst (gather respond sched
                         [parse_wildberries query; parse_ozon query;
                          parse_yandex_market query] s))
             = Ok [wb; oz; ym])
    /\ (forall (w : site) (src : source),
          (match on_goto w (build_url src query) with
           | Some _ => site_listings w src query = []
           | None => True
           end)
          /\ (match on_wait w (result_selector src) with
              | Some _ => site_listings w src query = []
              | None => True
              end)
          /\ (match on_query_all w (result_selector src) with
              | Err _ => site_listings w src query = []
              | Ok _ => True
              end)
          /\ all_results (site_respond w) text sched tt =
             if len (strip text) <? 2 then None
             else Some (site_listings w wildberries (strip text)
                        ++ site_listings w ozon (strip text)
                        ++ site_listings w yandex_market (strip text))).
Proof.
  intros St respond query text sched i s.
  split; [|split; [|split; [|split]]].
  - destruct (run_alone respond wildberries query i s) as (items & H & _).
    now exists items.
  - destruct (run_alone respond ozon query i s) as (items & H & _).
    now exists items.
  - destruct (run_alone respond yandex_market query i s) as (items & H & _).
    now exists items.
  - destruct (three_sound respond query sched s) as (wb & oz & ym & Hr & Hg & _).
    exists wb, oz, ym. now split.
  - intros w src. unfold site_listings.
    repeat split.
    + now destruct (on_goto w (build_url src query)).
    + destruct (on_wait w (result_selector src)); [|exact I].
      now destruct (on_goto w (build_url src query)).
    + destruct (on_query_all w (result_selector src)); [exact I|].
      destruct (on_goto w (build_url src query)); [reflexivity|].
      now destruct (on_wait w (result_selector src)).
    + apply all_results_on_site.
Qed.

(** C8. Whatever the browser answers and however many cards a site
    shows, each extractor returns at most 5 listings, and the flattened
    aggregate of [search_products] has at most 15. *)
Theorem at_most_five_per_source :
  forall (St : Type) (respond : forall X, call X -> St -> result X * St)
         (query text : pystr) (sched : list nat) (i : nat) (s : St),
    (exists items, fst (fst (run respond i (parse_wildberries query) s)) = Ok items
                   /\ List.length items <= 5)
    /\ (exists items, fst (fst (run respond i (parse_ozon query) s)) = Ok items
                      /\ List.length items <= 5)
    /\ (exists items,
          fst (fst (run respond i (parse_yandex_market query) s)) = Ok items
          /\ List.length items <= 5)
    /\ match all_results respond text sched s with
       | Some l => List.length l <= 15
       | None => True
       end.
Proof.
  intros St respond query text sched i s.
  split; [|split; [|split]].
  - destruct (run_alone respond wildberries query i s) as (items & H & H5 & _).
    now exists items.
  - destruct (run_alone respond ozon query i s) as (items & H & H5 & _).
    now exists items.
  - destruct (run_alone respond yandex_market query i s) as (items & H & H5 & _).
    now exists items.
  - pose proof (all_results_split respond text sched s) as H.
    destruct (len (strip text) <? 2); [now rewrite H|].
    destruct H as (wb & oz & ym & -> & [H1 _] & [H2 _] & [H3 _]).
    rewrite !length_app. lia.
Qed.

Lemma labelled src items (l : pystr) :
  label src = l -> Forall (item_ok src) items ->
  Forall (fun it => marketplace it = l) items.
Proof.
  intros <-. apply Forall_impl. now intros it (H & _).
Qed.

(** C2. Whatever the browser answers and in whatever order the event
    loop resumes the extractors, the aggregate is the Wildberries
    listings, then the Ozon listings, then the Yandex.Market listings.
    On a site whose pages answer the same under every interleaving, each
    part is the listings of the first five cards in the order of the
    cards, and two schedules give the same aggregate; the schedules of
    the last part complete the tasks in different orders. *)
Theorem aggregate_is_source_major :
  forall (St : Type) (respond : forall X, call X -> St -> result X * St)
         (text : pystr) (sched sched' : list nat) (s : St) (w : site),
    (match all_results respond text sched s with
     | Some l =>
       exists wb oz ym,
         l = wb ++ oz ++ ym
         /\ Forall (fun it => marketplace it = WILDBERRIES) wb
         /\ Forall (fun it => marketplace it = OZON) oz
         /\ Forall (fun it => marketplace it = YANDEX_MARKET) ym
     | None => len (strip text) < 2
     end)
    /\ all_results (site_respond w) text sched tt =
       (if len (strip text) <? 2 then None
        else Some (site_listings w wildberries (strip text)
                   ++ site_listings w ozon (strip text)
                   ++ site_listings w yandex_market (strip text)))
    /\ all_results (site_respond w) text sched' tt
       = all_results (site_respond w) text sched tt
    /\ completion_order
         (events (search_products (site_respond blank_card_site) (py "ab") [] tt))
       = [0; 1; 2]
    /\ completion_order
         (events (search_products (site_respond blank_card_site) (py "ab")
                    [2; 2; 2; 1; 1; 1] tt))
       = [2; 1; 0].
Proof.
  intros St respond text sched sched' s w.
  split; [|split; [|split; [|split]]].
  - pose proof (all_results_split respond text sched s) as H.
    destruct (len (strip text) <? 2) eqn:E.
    + rewrite H. apply Nat.ltb_lt. exact E.
    + destruct H as (wb & oz & ym & -> & [_ H1] & [_ H2] & [_ H3]).
      exists wb, oz, ym. split; [reflexivity|].
      split; [|split].
      * now apply (@labelled wildberries).
      * now apply (@labelled ozon).
      * now apply (@labelled yandex_market).
  - apply all_results_on_site.
  - now rewrite !all_results_on_site.
  - vm_compute. reflexivity.
  - vm_compute. reflexivity.
Qed.

Lemma yandex_price_nonnegative it :
  item_ok yandex_market it -> is_nonnegative (price it) = true.
Proof.
  intros (_ & _ & raw & H). cbn [to_price yandex_market] in H.
  unfold float_digits in H. destruct raw as [|raw]; [discriminate|].
  rewrite digits_price_spec in H.
  destruct (nonempty (digits_only raw) && forallb isdecimal (digits_only raw));
    [|discriminate].
  now injection H as <-.
Qed.

Lemma item_ok_title src it : item_ok src it -> strip (title it) = title it.
Proof. intros (_ & (t & ->) & _). apply strip_idempotent. Qed.

(** C3, as the code has it.  Every listing of the aggregate carries one
    of the three marketplace names and a title without white space at
    either end, and a Yandex.Market listing has a price that is not
    negative.  Nothing more is checked: the title and the url may be
    empty and a Wildberries or Ozon price may be negative. *)
Theorem aggregate_listing_invariant :
  forall (St : Type) (respond : forall X, call X -> St -> result X * St)
         (text : pystr) (sched : list nat) (s : St),
    match all_results respond text sched s with
    | Some l =>
      Forall (fun it =>
        In (marketplace it) [WILDBERRIES; OZON; YANDEX_MARKET]
        /\ strip (title it) = title it
        /\ (if PyStr.eqb (marketplace it) YANDEX_MARKET
            then is_nonnegative (price it) = true
            else True)) l
    | None => True
    end.
Proof.
  intros St respond text sched s.
  pose proof (all_results_split respond text sched s) as H.
  destruct (len (strip text) <? 2); [now rewrite H|].
  destruct H as (wb & oz & ym & -> & [_ H1] & [_ H2] & [_ H3]).
  rewrite !Forall_app. repeat split.
  - revert H1. apply Forall_impl. intros it Hit.
    pose proof (item_ok_title Hit) as Ht. destruct Hit as (Hm & _).
    rewrite Hm. cbn [label wildberries]. repeat split; [now left | exact Ht].
  - revert H2. apply Forall_impl. intros it Hit.
    pose proof (item_ok_title Hit) as Ht. destruct Hit as (Hm & _).
    rewrite Hm. cbn [label ozon]. repeat split; [right; now left | exact Ht].
  - revert H3. apply Forall_impl. intros it Hit.
    pose proof (item_ok_title Hit) as Ht.
    pose proof (yandex_price_nonnegative Hit) as Hp.
    destruct Hit as (Hm & _).
    rewrite Hm. cbn [label yandex_market].
    repeat split; [right; right; now left | exact Ht | exact Hp].
Qed.

(** C3 as stated fails: on [blank_card_site] the aggregate for the
    query "ab" is one Wildberries listing whose title is empty, whose
    url is empty and whose price is -5. *)
Lemma blank_listing_in_aggregate :
  all_results (site_respond blank_card_site) (py "ab") [] tt = Some [blank_item]
  /\ title blank_item = []
  /\ url blank_item = JStr []
  /\ is_negative (price blank_item) = true
  /\ ~ valid_listing blank_item.
Proof.
  split; [vm_compute; reflexivity|].
  repeat split. intros (H & _). now apply H.
Qed.

(** C4. A message whose stripped text is shorter than 2 gets the
    validation prompt and nothing else happens: no browser, no page, no
    navigation, and the browser state is as it was.  For a longer text
    the handler announces the search, opens the browser and a page, and
    each of the three extractors navigates to its search url. *)
Theorem short_query_rejected :
  forall (St : Type) (respond : forall X, call X -> St -> result X * St)
         (text : pystr) (sched : list nat) (s : St),
    if len (strip text) <? 2
    then search_products respond text sched s
         = {| events := [ReplyText PROMPT]; raised := None; final := s |}
    else exists rest,
      events (search_products respond text sched s)
      = ReplyText (searching (strip text)) :: Launch :: NewPage :: rest
      /\ (exists f,
            In (Awaited 0 (ReqGoto (build_url wildberries (strip text))) f) rest)
      /\ (exists f,
            In (Awaited 1 (ReqGoto (build_url ozon (strip text))) f) rest)
      /\ (exists f,
            In (Awaited 2 (ReqGoto (build_url yandex_market (strip text))) f) rest).
Proof.
  intros St respond text sched s.
  destruct (len (strip text) <? 2) eqn:E.
  - unfold search_products. now rewrite E.
  - destruct (search_products_opened respond text sched s E) as (rest & Hev & Hgo).
    exists rest. split; [exact Hev|].
    split; [|split]; now apply Hgo.
Qed.

(** C5, the failing input.  On the text "1 234,56 ₽" the decimal
    strategy removes the spaces and turns the comma into a point, but the
    rouble sign U+20BD stays, so [float] raises [ValueError] and the item
    is dropped; without the sign the same text gives 1234.56. *)
Theorem rouble_sign_breaks_decimal_price :
  clean_decimal (py "1 234,56 ₽") = py "1234.56₽"
  /\ decimal_price (py "1 234,56 ₽") = None
  /\ float_decimal (JStr (py "1 234,56 ₽")) = Err ValueError
  /\ decimal_price (py "1 234,56") = Some (Finite false 123456 (-2)).
Proof. repeat split; vm_compute; reflexivity. Qed.

(** C6, as the code has it.  For every raw price text, both strategies
    fail when the cleaned text is empty, and the digits-only strategy
    never gives a negative price.  The decimal strategy does not reject a
    negative result: what [float] returns is the price of the item,
    whatever its sign, and a minus sign followed by digits gives the
    negative of the number the digits form. *)
Theorem price_failure_rules :
  forall raw : pystr,
    (match clean_decimal raw with
     | [] => decimal_price raw = None /\ float_decimal (JStr raw) = Err ValueError
     | _ :: _ => True
     end)
    /\ (match digits_only raw with
        | [] => digits_price raw = None /\ float_digits (JStr raw) = Err ValueError
        | _ :: _ => True
        end)
    /\ (match digits_price raw with
        | Some f => is_negative f = false
        | None => True
        end)
    /\ (match decimal_price raw with
        | Some f => float_decimal (JStr raw) = Ok f
        | None => float_decimal (JStr raw) = Err ValueError
        end)
    /\ (if nonempty raw && forallb is_ascii_digit raw
        then decimal_price (45%N :: raw)
             = Some (Finite true (digits_value raw) 0)
        else True).
Proof.
  intros raw. split; [|split; [|split; [|split]]].
  - unfold float_decimal, decimal_price.
    destruct (clean_decimal raw); [now split | exact I].
  - unfold float_digits, digits_price.
    destruct (digits_only raw); [now split | exact I].
  - rewrite digits_price_spec.
    now destruct (nonempty (digits_only raw) && forallb isdecimal (digits_only raw)).
  - unfold float_decimal. now destruct (decimal_price raw).
  - destruct (nonempty raw && forallb is_ascii_digit raw) eqn:E; [|exact I].
    apply andb_prop in E as [E1 E2]. apply decimal_price_negative.
    + now destruct raw.
    + apply Forall_forall. now apply forallb_forall.
Qed.

(** C6 as stated fails: the decimal strategy parses "-5" to -5 and the
    item keeps that price. *)
Lemma decimal_price_keeps_negative :
  decimal_price (py "-5") = Some (Finite true 5 0)
  /\ float_decimal (JStr (py "-5")) = Ok (Finite true 5 0)
  /\ is_negative (Finite true 5 0) = true.
Proof. repeat split; vm_compute; reflexivity. Qed.

(** C7, as the code has it.  Each extractor navigates to its fixed url
    prefix followed by the query as it is, character for character. *)
Theorem query_interpolated_verbatim :
  forall query : pystr,
    (search_url wildberries
     = py "https://www.wildberries.ru/catalog/0/search.aspx?search="
     /\ exists k,
          parse_wildberries query
          = Await (goto (search_url wildberries ++ query) 15000) k)
    /\ (search_url ozon = py "https://www.ozon.ru/search/?text="
        /\ exists k,
             parse_ozon query = Await (goto (search_url ozon ++ query) 15000) k)
    /\ (search_url yandex_market = py "https://market.yandex.ru/search?text="
        /\ exists k,
             parse_yandex_market query
             = Await (goto (search_url yandex_market ++ query) 15000) k).
Proof.
  intros query. split; [|split].
  - split; [reflexivity|].
    exact (parse_source_goes_to wildberries query).
  - split; [reflexivity|].
    exact (parse_source_goes_to ozon query).
  - split; [reflexivity|].
    exact (parse_source_goes_to yandex_market query).
Qed.

(** C7 as stated fails: for the query "a&b" Wildberries is asked for
    the url that ends in "a&b", not for the percent-encoded "a%26b". *)
Lemma ampersand_not_encoded :
  (exists k,
     parse_wildberries (py "a&b")
     = Await (goto (build_url wildberries (py "a&b")) 15000) k)
  /\ build_url wildberries (py "a&b")
     = py "https://www.wildberries.ru/catalog/0/search.aspx?search=a&b"
  /\ search_url wildberries ++ spec_percent_encode (py "a&b")
     = py "https://www.wildberries.ru/catalog/0/search.aspx?search=a%26b"
  /\ build_url wildberries (py "a&b")
     <> search_url wildberries ++ spec_percent_encode (py "a&b").
Proof.
  split; [|split; [|split]].
  - exact (parse_source_starts wildberries (py "a&b")).
  - vm_compute. reflexivity.
  - vm_compute. reflexivity.
  - vm_compute. discriminate.
Qed.

(** The extractor of Yandex.Market on a page with one card: the
    listing has the price that [float_digits] reads from the text of the
    price element, and there is no listing when it raises. *)
Lemma price_card_listing raw query i :
  fst (fst (run (site_respond (price_card_site raw)) i
              (parse_yandex_market query) tt))
  = Ok (match float_digits (JStr raw) with
        | Ok f => [priced_item f]
        | Err _ => []
        end).
Proof.
  unfold parse_yandex_market. rewrite run_eval, eval_parse_source.
  f_equal. unfold site_listings, site_item.
  cbn [price_card_site on_goto on_wait on_query_all on_eval firstn flat_map].
  rewrite app_nil_r.
  assert (E1 : PyStr.eqb (title_selector yandex_market)
                 (price_selector yandex_market) = false) by (vm_compute; reflexivity).
  assert (E2 : PyStr.eqb (price_selector yandex_market)
                 (price_selector yandex_market) = true) by (vm_compute; reflexivity).
  assert (E3 : PyStr.eqb (link_selector yandex_market)
                 (price_selector yandex_market) = false) by (vm_compute; reflexivity).
  assert (E4 : PyStr.eqb (py "img") (price_selector yandex_market) = false)
    by (vm_compute; reflexivity).
  rewrite E1, E2, E3, E4.
  assert (E5 : str_strip (JStr (py "x")) = Ok (py "x")) by (vm_compute; reflexivity).
  rewrite E5.
  change (to_price yandex_market) with float_digits.
  now destruct (float_digits (JStr raw)).
Qed.

(** C9. The digits-only strategy gives 12990 on "12 990 ₽": that is
    what line 84 computes, and the price of the listing that
    parse_yandex_market returns for a card with this price text.  It fails
    on every text in which no digit character is left: [float] raises
    [ValueError] and the card gives no listing. *)
Theorem digits_price_example :
  digits_only (py "12 990 ₽") = py "12990"
  /\ digits_price (py "12 990 ₽") = Some (Finite false 12990 0)
  /\ to_price yandex_market = float_digits
  /\ float_digits (JStr (py "12 990 ₽")) = Ok (Finite false 12990 0)
  /\ (forall query : pystr,
        fst (fst (run (site_respond (price_card_site (py "12 990 ₽"))) 0
                    (parse_yandex_market query) tt))
        = Ok [priced_item (Finite false 12990 0)])
  /\ forall raw : pystr,
       match digits_only raw with
       | [] =>
         digits_price raw = None
         /\ float_digits (JStr raw) = Err ValueError
         /\ forall query : pystr,
              fst (fst (run (site_respond (price_card_site raw)) 0
                          (parse_yandex_market query) tt))
              = Ok []
       | _ :: _ => True
       end.
Proof.
  assert (E : float_digits (JStr (py "12 990 ₽")) = Ok (Finite false 12990 0))
    by (vm_compute; reflexivity).
  split; [vm_compute; reflexivity|].
  split; [vm_compute; reflexivity|].
  split; [reflexivity|].
  split; [exact E|].
  split.
  - intros query. rewrite price_card_listing. now rewrite E.
  - intros raw.
    assert (H : forall query : pystr,
              fst (fst (run (site_respond (price_card_site raw)) 0
                          (parse_yandex_market query) tt))
              = Ok (match float_digits (JStr raw) with
                    | Ok f => [priced_item f]
                    | Err _ => []
                    end))
      by (intros query; apply price_card_listing).
    unfold float_digits, digits_price in *.
    destruct (digits_only raw); [|exact I].
    repeat split. exact H.
Qed.

(** C10, as the code has it.  For every raw price text line 84 keeps the
    digit characters in order and drops every other character, a decimal
    comma included, and hands them to [float].  That raises [ValueError]
    when no character is kept or when a character kept is not a decimal
    digit; otherwise it gives a price that is not negative, and that is
    the number the digits form when that number is below 2^53.  The
    listing of parse_yandex_market has this price.  So "1 234,56" gives
    123456. *)
Theorem digits_price_concatenates :
  forall raw query : pystr,
    to_price yandex_market = float_digits
    /\ (match float_digits (JStr raw) with
        | Ok f =>
          nonempty (digits_only raw) = true
          /\ forallb isdecimal (digits_only raw) = true
          /\ is_nonnegative f = true
          /\ ((number_of (digits_only raw) <? 2 ^ 53)%N = true ->
              f = Finite false (number_of (digits_only raw)) 0)
        | Err e =>
          e = ValueError
          /\ nonempty (digits_only raw) && forallb isdecimal (digits_only raw)
             = false
        end)
    /\ fst (fst (run (site_respond (price_card_site raw)) 0
                   (parse_yandex_market query) tt))
       = Ok (match float_digits (JStr raw) with
             | Ok f => [priced_item f]
             | Err _ => []
             end)
    /\ digits_only (py "1 234,56") = py "123456"
    /\ float_digits (JStr (py "1 234,56")) = Ok (Finite false 123456 0).
Proof.
  intros raw query. split; [reflexivity|].
  split; [|split; [apply price_card_listing|split; vm_compute; reflexivity]].
  unfold float_digits. rewrite digits_price_spec.
  destruct (nonempty (digits_only raw)) eqn:E1;
    [destruct (forallb isdecimal (digits_only raw)) eqn:E2|]; cbn [andb].
  - repeat split. 
  - now split.
  - now split.
Qed.

(** C10 as stated fails: both characters of "5²" are digit characters
    for [str.isdigit], so both are kept, and [float] raises [ValueError]
    on them instead of giving a number. *)
Lemma superscript_is_no_number :
  forallb isdigit (py "5²") = true
  /\ digits_only (py "5²") = py "5²"
  /\ digits_price (py "5²") = None
  /\ float_digits (JStr (py "5²")) = Err ValueError
  /\ fst (fst (run (site_respond (price_card_site (py "5²"))) 0
                 (parse_yandex_market (py "ab")) tt))
     = Ok [].
Proof. repeat split; vm_compute; reflexivity. Qed.

End Claims.

(** * Further properties of the code *)

Module PriceFacts.
Import PyStr PyFloat Price Prog Bot Logic Spec.
Import FloatFacts StripFacts Shapes.
Local Open Scope N_scope.

(** [replace] of a one-character pattern rewrites every occurrence. *)
Lemma replace_char h new s :
  replace s [h] new = flat_map (fun c => if h =? c then new else [c]) s.
Proof.
  unfold replace. induction s as [|c s IH]; [reflexivity|].
  cbn [replace_from startswith flat_map List.length Nat.sub].
  replace (startswith s []) with true by now destruct s.
  destruct (h =? c); cbn [andb]; rewrite IH; reflexivity.
Qed.

Lemma underscores_none s : forall prev,
  (prev =? 95) = false -> Forall (fun c => (c =? 95) = false) s ->
  underscores prev s = Some s.
Proof.
  induction s as [|c s IH]; intros prev Hp Hs; cbn [underscores].
  - now rewrite Hp.
  - inversion Hs as [|? ? Hc Hs']; subst.
    rewrite Hc, Hp. cbn [andb]. now rewrite IH.
Qed.

Lemma lstrip_c_id s : hd_c_ok s -> lstrip_c s = s.
Proof. destruct s as [|c s]; cbn; [reflexivity | now intros ->]. Qed.

Lemma strip_c_id s : hd_c_ok s -> hd_c_ok (rev s) -> strip_c s = s.
Proof.
  intros H1 H2. unfold strip_c. rewrite (@lstrip_c_id s H1), lstrip_c_id by exact H2.
  apply rev_involutive.
Qed.

Lemma digit_or_point_facts c :
  digit_or_point c ->
  (c =? 95) = false /\ is_c_space c = false /\ isspace c = false
  /\ (c =? 45) = false /\ (c =? 43) = false /\ tolower c = c
  /\ (c <? 128) = true /\ 46 <= c <= 57.
Proof.
  intros H. assert (Hb : 46 <= c <= 57).
  { destruct H as [H | ->]; [apply is_ascii_digit_bounds in H|]; lia. }
  unfold is_c_space, isspace, tolower.
  repeat split; try bool_false; try lia.
  - replace ((65 <=? c) && (c <=? 90)) with false by (symmetry; bool_false).
    reflexivity.
  - apply N.ltb_lt. lia.
Qed.

Lemma Forall_hd_ok s : Forall (fun c => isspace c = false) s -> hd_ok s.
Proof. now destruct 1. Qed.

Lemma Forall_hd_c_ok s : Forall (fun c => is_c_space c = false) s -> hd_c_ok s.
Proof. now destruct 1. Qed.

Lemma strip_no_space s :
  Forall (fun c => isspace c = false) s -> strip s = s.
Proof.
  intros H. unfold strip.
  rewrite lstrip_id by now apply Forall_hd_ok.
  apply rstrip_id. now apply Forall_hd_ok, Forall_rev.
Qed.

Lemma strip_c_no_space s :
  Forall (fun c => is_c_space c = false) s -> strip_c s = s.
Proof.
  intros H. apply strip_c_id.
  - now apply Forall_hd_c_ok.
  - now apply Forall_hd_c_ok, Forall_rev.
Qed.

Lemma parse_inf_or_nan_numeric c s :
  digit_or_point c -> parse_inf_or_nan (c :: s) = None.
Proof.
  intros Hc.
  destruct (digit_or_point_facts Hc) as (_ & _ & _ & H45 & H43 & Hl & _ & Hb).
  unfold parse_inf_or_nan, take_sign. rewrite H45, H43. cbn [map]. rewrite Hl.
  change (py "inf") with (105 :: [110; 102]).
  change (py "infinity") with (105 :: [110; 102; 105; 110; 105; 116; 121]).
  change (py "nan") with (110 :: [97; 110]).
  rewrite !eqb_head_neq by lia. reflexivity.
Qed.

(** [float] on digits, a point, digits *)
Lemma float_point ip fp :
  Forall (fun c => is_ascii_digit c = true) ip ->
  Forall (fun c => is_ascii_digit c = true) fp ->
  ip ++ fp <> [] ->
  float (ip ++ 46 :: fp)
  = Some (Finite false (digits_value (ip ++ fp)) (- Z.of_nat (List.length fp))).
Proof.
  intros Hi Hf Hne.
  assert (Hall : Forall digit_or_point (ip ++ 46 :: fp)).
  { apply Forall_app. split.
    - revert Hi. apply Forall_impl. now left.
    - constructor; [now right|]. revert Hf. apply Forall_impl. now left. }
  unfold float, transform.
  replace (forallb (fun c => c <? 128) (ip ++ 46 :: fp)) with true.
  2:{ symmetry. apply forallb_forall. intros c Hc. rewrite Forall_forall in Hall.
      now destruct (digit_or_point_facts (Hall c Hc)) as (_&_&_&_&_&_&?&_). }
  unfold float_ascii.
  rewrite underscores_none.
  2: reflexivity.
  2:{ revert Hall. apply Forall_impl. intros c Hc.
      now destruct (digit_or_point_facts Hc). }
  rewrite strip_c_no_space.
  2:{ revert Hall. apply Forall_impl. intros c Hc.
      now destruct (digit_or_point_facts Hc) as (_ & ? & _). }
  destruct (ip ++ 46 :: fp) as [|c r] eqn:E; [now destruct ip|]. cbv iota.
  rewrite parse_inf_or_nan_numeric by now inversion Hall.
  rewrite <- E. clear E Hall c r.
  unfold strtod.
  assert (Hsign : take_sign (ip ++ 46 :: fp) = (false, ip ++ 46 :: fp)).
  { destruct ip as [|c ip']; [reflexivity|]. cbn [app take_sign].
    assert (Hc : digit_or_point c) by (left; now inversion Hi).
    destruct (digit_or_point_facts Hc) as (_ & _ & _ & -> & -> & _). reflexivity. }
  rewrite Hsign, span_digits_app by (exact Hi || reflexivity).
  cbn [N.eqb Pos.eqb].
  rewrite <- (app_nil_r fp) at 1.
  rewrite span_digits_app by (exact Hf || exact I).
  destruct (ip ++ fp) eqn:E; [congruence | reflexivity].
Qed.

Lemma digit_or_space_facts c :
  digit_or_space c ->
  (226 =? c) = false /\ (44 =? c) = false
  /\ (if 32 =? c then [] else [c]) = (if is_ascii_digit c then [c] else []).
Proof.
  intros [H | ->]; [|repeat split; reflexivity].
  rewrite H. apply is_ascii_digit_bounds in H.
  repeat split; try bool_false.
  replace (32 =? c) with false by (symmetry; bool_false). reflexivity.
Qed.

Lemma drop_spaces a :
  Forall digit_or_space a ->
  flat_map (fun c => if 32 =? c then [] else [c]) a = ascii_digits a.
Proof.
  induction 1 as [|c a Hc _ IH]; [reflexivity|].
  cbn [flat_map ascii_digits filter].
  destruct (digit_or_space_facts Hc) as (_ & _ & ->).
  fold (ascii_digits a). rewrite IH. now destruct (is_ascii_digit c).
Qed.

Lemma ascii_digits_digits a :
  Forall (fun c => is_ascii_digit c = true) (ascii_digits a).
Proof.
  apply Forall_forall. intros c Hc. unfold ascii_digits in Hc.
  now apply filter_In in Hc.
Qed.

Lemma comma_to_point d :
  Forall (fun c => is_ascii_digit c = true) d ->
  flat_map (fun c => if 44 =? c then [46] else [c]) d = d.
Proof.
  induction 1 as [|c d Hc _ IH]; [reflexivity|].
  cbn [flat_map]. rewrite IH.
  replace (44 =? c) with false; [reflexivity|].
  symmetry. apply is_ascii_digit_bounds in Hc. bool_false.
Qed.

Lemma digits_no_space d :
  Forall (fun c => is_ascii_digit c = true) d ->
  Forall (fun c => isspace c = false) d.
Proof.
  apply Forall_impl. intros c Hc.
  now destruct (@digit_or_point_facts c (or_introl Hc)) as (_ & _ & ? & _).
Qed.

(** What the decimal strategy hands to [float] for digits in groups
    around one comma: the digits, a point, the digits. *)
Lemma clean_decimal_grouped a b :
  Forall digit_or_space a -> Forall digit_or_space b ->
  clean_decimal (a ++ 44 :: b) = ascii_digits a ++ 46 :: ascii_digits b.
Proof.
  intros Ha Hb. unfold clean_decimal, artifact_thin_space, artifact_currency.
  assert (H226 : Forall (fun c => (226 =? c) = false) (a ++ 44 :: b)).
  { apply Forall_app. split; [|constructor; [reflexivity|]].
    - revert Ha. apply Forall_impl. intros c Hc. now destruct (digit_or_space_facts Hc).
    - revert Hb. apply Forall_impl. intros c Hc. now destruct (digit_or_space_facts Hc). }
  rewrite (@replace_absent 226 [128; 137] [] _ H226).
  rewrite (@replace_absent 226 [130] [] _ H226).
  change (py " ") with [32]. change (py ",") with [44]. change (py ".") with [46].
  rewrite !replace_char, !flat_map_app. cbn [flat_map N.eqb Pos.eqb app].
  rewrite !drop_spaces by assumption.
  rewrite !comma_to_point by apply ascii_digits_digits.
  apply strip_no_space, Forall_app. split; [|constructor; [reflexivity|]];
    apply digits_no_space, ascii_digits_digits.
Qed.

Lemma clean_decimal_groups a :
  Forall digit_or_space a -> clean_decimal a = ascii_digits a.
Proof.
  intros Ha. unfold clean_decimal, artifact_thin_space, artifact_currency.
  assert (H226 : Forall (fun c => (226 =? c) = false) a).
  { revert Ha. apply Forall_impl. intros c Hc. now destruct (digit_or_space_facts Hc). }
  rewrite (@replace_absent 226 [128; 137] [] _ H226).
  rewrite (@replace_absent 226 [130] [] _ H226).
  change (py " ") with [32]. change (py ",") with [44]. change (py ".") with [46].
  rewrite !replace_char. rewrite drop_spaces by assumption.
  rewrite comma_to_point by apply ascii_digits_digits.
  apply strip_no_space, digits_no_space, ascii_digits_digits.
Qed.

Lemma float_digits_only d :
  d <> [] -> Forall (fun c => is_ascii_digit c = true) d ->
  float d = Some (Finite false (digits_value d) 0).
Proof.
  intros Hne Hd. unfold float, transform.
  replace (forallb (fun c => c <? 128) d) with true; [now apply float_ascii_digits|].
  symmetry. apply forallb_forall. intros c Hc. rewrite Forall_forall in Hd.
  apply N.ltb_lt. specialize (Hd c Hc). apply is_ascii_digit_bounds in Hd. lia.
Qed.

End PriceFacts.

Module GapFacts.
Import PyStr PyFloat Price Prog Bot Logic Spec.
Import FloatFacts StripFacts Shapes PriceFacts.
Local Open Scope N_scope.

Lemma digit_facts c :
  is_ascii_digit c = true ->
  (226 =? c) = false /\ (32 =? c) = false /\ (44 =? c) = false
  /\ (c <? 127) = true /\ (c <? 128) = true /\ (c =? 95) = false
  /\ isspace c = false /\ is_c_space c = false.
Proof.
  intros H. apply is_ascii_digit_bounds in H. unfold isspace, is_c_space.
  repeat split; try bool_false; apply N.ltb_lt; lia.
Qed.

(** What a white space character other than U+0020 becomes on the way
    to the parser: itself when it is ASCII, a space otherwise. *)
Lemma gap_facts c :
  isspace c = true -> c <> 32 ->
  (226 =? c) = false /\ (32 =? c) = false /\ (44 =? c) = false
  /\ ((c <? 128) = true /\ 9 <= c <= 31 \/ (c <? 127) = false /\ (c <? 128) = false).
Proof.
  intros H Hne. apply isspace_bounds in H.
  repeat split; try bool_false.
  destruct (N.lt_ge_cases c 128) as [Hlt | Hge].
  - left. split; [now apply N.ltb_lt | lia].
  - right. split; apply N.ltb_ge; lia.
Qed.

Lemma transform_loop_digits_app d r :
  Forall (fun c => is_ascii_digit c = true) d ->
  transform_loop (d ++ r) = d ++ transform_loop r.
Proof.
  induction 1 as [|c d Hc _ IH]; [reflexivity|]. cbn [app transform_loop].
  destruct (@digit_facts _ Hc) as (_ & _ & _ & -> & _). now rewrite IH.
Qed.

Lemma transform_loop_all_digits d :
  Forall (fun c => is_ascii_digit c = true) d -> transform_loop d = d.
Proof.
  intros H. rewrite <- (app_nil_r d) at 1.
  rewrite transform_loop_digits_app by exact H. cbn. apply app_nil_r.
Qed.

Lemma forallb_below_128 d :
  Forall (fun c => is_ascii_digit c = true) d ->
  forallb (fun c => c <? 128) d = true.
Proof.
  intros H. apply forallb_forall. intros c Hc. rewrite Forall_forall in H.
  now destruct (@digit_facts _ (H c Hc)) as (_ & _ & _ & _ & ? & _).
Qed.

(** The parser on digits, one character that is no digit, no point, no
    exponent mark and no underscore, and digits again. *)
Lemma float_ascii_gap a x b :
  a <> [] -> b <> [] ->
  Forall (fun c => is_ascii_digit c = true) a ->
  Forall (fun c => is_ascii_digit c = true) b ->
  is_ascii_digit x = false -> (x =? 95) = false -> (x =? 46) = false ->
  (x =? 101) = false -> (x =? 69) = false ->
  float_ascii (a ++ x :: b) = None.
Proof.
  intros Ha Hb Da Db Hx H95 H46 H101 H69. unfold float_ascii.
  rewrite underscores_none.
  2: reflexivity.
  2:{ apply Forall_app. split; [|constructor; [exact H95|]].
      - revert Da. apply Forall_impl. intros c Hc. now destruct (@digit_facts _ Hc) as (_&_&_&_&_&?&_).
      - revert Db. apply Forall_impl. intros c Hc. now destruct (@digit_facts _ Hc) as (_&_&_&_&_&?&_). }
  rewrite strip_c_id.
  2:{ destruct a as [|c a']; [congruence|]. cbn.
      inversion Da as [|? ? Hc _]; subst. now destruct (@digit_facts _ Hc) as (_&_&_&_&_&_&_&?). }
  2:{ rewrite rev_app_distr. cbn [rev]. rewrite <- app_assoc.
      destruct (rev b) as [|c rb] eqn:E.
      - apply (f_equal (@rev N)) in E. rewrite rev_involutive in E. now subst.
      - cbn. assert (Hin : In c b) by (apply in_rev; rewrite E; now left).
        rewrite Forall_forall in Db.
        now destruct (@digit_facts _ (Db c Hin)) as (_&_&_&_&_&_&_&?). }
  destruct a as [|c a']; [congruence|]. cbn [app].
  rewrite parse_inf_or_nan_numeric by (left; now inversion Da).
  change (c :: a' ++ x :: b) with ((c :: a') ++ x :: b).
  unfold strtod.
  assert (Hsign : take_sign ((c :: a') ++ x :: b) = (false, (c :: a') ++ x :: b)).
  { cbn [app take_sign]. inversion Da as [|? ? Hc _]; subst.
    apply is_ascii_digit_bounds in Hc.
    replace (c =? 45) with false by (symmetry; bool_false).
    replace (c =? 43) with false by (symmetry; bool_false). reflexivity. }
  rewrite Hsign, span_digits_app by (exact Da || exact Hx).
  rewrite H46. cbn [app]. rewrite app_nil_r. cbv iota.
  now rewrite H101, H69.
Qed.

End GapFacts.

Module PriceExtras.
Import PyStr PyFloat Price Prog Bot Logic Spec.
Import FloatFacts StripFacts Shapes PriceFacts GapFacts.
Local Open Scope N_scope.

(** X1. Lines 26 and 55 on a well-formed text: for digits in groups
    separated by U+0020 around one decimal comma, with at least one digit
    and at most 15 (the decimal digits that a binary64 number holds), the
    decimal strategy reads the digits before the comma followed by the
    digits after it, scaled by the number of digits after the comma, and
    that is the price of the item; without the comma the same digits give
    the integer. *)
Theorem decimal_price_grouped :
  forall a b : pystr,
    Forall digit_or_space a -> Forall digit_or_space b ->
    ascii_digits a ++ ascii_digits b <> [] ->
    (List.length (ascii_digits a ++ ascii_digits b) <= 15)%nat ->
    decimal_price (a ++ py "," ++ b)
    = Some (Finite false (digits_value (ascii_digits a ++ ascii_digits b))
                   (- Z.of_nat (List.length (ascii_digits b))))
    /\ float_decimal (JStr (a ++ py "," ++ b))
       = Ok (Finite false (digits_value (ascii_digits a ++ ascii_digits b))
                    (- Z.of_nat (List.length (ascii_digits b))))
    /\ decimal_price (a ++ b)
       = Some (Finite false (digits_value (ascii_digits a ++ ascii_digits b)) 0)
    /\ float_decimal (JStr (a ++ b))
       = Ok (Finite false (digits_value (ascii_digits a ++ ascii_digits b)) 0).
Proof.
  intros a b Ha Hb Hne _.
  assert (H1 : decimal_price (a ++ py "," ++ b)
               = Some (Finite false (digits_value (ascii_digits a ++ ascii_digits b))
                              (- Z.of_nat (List.length (ascii_digits b))))).
  { unfold decimal_price. change (py ",") with [44]. cbn [app].
    rewrite clean_decimal_grouped by assumption.
    apply float_point; [apply ascii_digits_digits.. | exact Hne]. }
  assert (H2 : decimal_price (a ++ b)
               = Some (Finite false
                         (digits_value (ascii_digits a ++ ascii_digits b)) 0)).
  { unfold decimal_price.
    rewrite clean_decimal_groups by (apply Forall_app; now split).
    unfold ascii_digits in *. rewrite filter_app.
    apply float_digits_only; [exact Hne|].
    apply Forall_app; split; apply ascii_digits_digits. }
  unfold float_decimal. rewrite H1, H2. repeat split.
Qed.

Lemma decimal_price_grouped_witness :
  decimal_price (py "1 234" ++ py "," ++ py "56")
  = Some (Finite false 123456 (-2))
  /\ float_decimal (JStr (py "1 234" ++ py "," ++ py "56"))
     = Ok (Finite false 123456 (-2))
  /\ decimal_price (py "1 234" ++ py "56") = Some (Finite false 123456 0)
  /\ float_decimal (JStr (py "1 234" ++ py "56")) = Ok (Finite false 123456 0).
Proof.
  apply (decimal_price_grouped (a := py "1 234") (b := py "56")).
  - apply Forall_forall. intros c Hc. vm_compute in Hc.
    repeat (destruct Hc as [<- | Hc]; [(now left) || (now right)|]).
    destruct Hc.
  - apply Forall_forall. intros c Hc. vm_compute in Hc.
    repeat (destruct Hc as [<- | Hc]; [(now left) || (now right)|]).
    destruct Hc.
  - vm_compute. discriminate.
  - vm_compute. lia.
Defined.

(** X2. Lines 26 and 55 with another separator: when two groups of
    digits are separated by a white space character that is not U+0020
    (a no-break space U+00A0, a thin space U+2009, a tab), nothing removes
    it and [float] raises [ValueError]: the item is dropped. *)
Theorem decimal_price_other_space :
  forall (a b : pystr) (c : N),
    a <> [] -> b <> [] ->
    Forall (fun d => is_ascii_digit d = true) a ->
    Forall (fun d => is_ascii_digit d = true) b ->
    isspace c = true -> c <> 32 ->
    clean_decimal (a ++ c :: b) = a ++ c :: b
    /\ decimal_price (a ++ c :: b) = None
    /\ float_decimal (JStr (a ++ c :: b)) = Err ValueError.
Proof.
  intros a b c Ha Hb Da Db Hc Hne.
  destruct (gap_facts Hc Hne) as (H226 & H32 & H44 & Hcase).
  assert (F : forall h, (h =? c) = false ->
                (forall d, is_ascii_digit d = true -> (h =? d) = false) ->
                Forall (fun d => (h =? d) = false) (a ++ c :: b)).
  { intros h Hh Hd. apply Forall_app. split; [|constructor; [exact Hh|]].
    - revert Da. apply Forall_impl. exact Hd.
    - revert Db. apply Forall_impl. exact Hd. }
  assert (Hclean : clean_decimal (a ++ c :: b) = a ++ c :: b).
  { unfold clean_decimal, artifact_thin_space, artifact_currency.
    change (py " ") with [32]. change (py ",") with [44].
    assert (F226 := F 226 H226 (fun d Hd => proj1 (@digit_facts d Hd))).
    assert (F32 := F 32 H32 (fun d Hd => proj1 (proj2 (@digit_facts d Hd)))).
    assert (F44 := F 44 H44 (fun d Hd => proj1 (proj2 (proj2 (@digit_facts d Hd))))).
    rewrite (@replace_absent 226 [128; 137] [] _ F226).
    rewrite (@replace_absent 226 [130] [] _ F226).
    rewrite (@replace_absent 32 [] [] _ F32).
    rewrite (@replace_absent 44 [] (py ".") _ F44).
    unfold strip. rewrite lstrip_id.
    2:{ destruct a as [|d a']; [congruence|]. cbn. inversion Da as [|? ? Hd _]; subst.
        now destruct (@digit_facts d Hd) as (_&_&_&_&_&_&?&_). }
    apply rstrip_id. rewrite rev_app_distr. cbn [rev]. rewrite <- app_assoc.
    destruct (rev b) as [|d rb] eqn:E.
    - apply (f_equal (@rev N)) in E. rewrite rev_involutive in E. now subst.
    - cbn. assert (Hin : In d b) by (apply in_rev; rewrite E; now left).
      rewrite Forall_forall in Db.
      now destruct (@digit_facts d (Db d Hin)) as (_&_&_&_&_&_&?&_). }
  assert (Hnone : decimal_price (a ++ c :: b) = None).
  { unfold decimal_price. rewrite Hclean. unfold float, transform.
    rewrite forallb_app. cbn [forallb]. rewrite !forallb_below_128 by assumption.
    cbn [andb]. rewrite andb_true_r.
    destruct Hcase as [[Hlt Hb'] | [H127 H128]].
    - rewrite Hlt. apply float_ascii_gap; try assumption;
        unfold is_ascii_digit; bool_false.
    - rewrite H128. rewrite transform_loop_digits_app by assumption.
      cbn [transform_loop]. rewrite H127, Hc.
      rewrite transform_loop_all_digits by assumption.
      apply float_ascii_gap; try assumption; reflexivity. }
  repeat split; [exact Hclean | exact Hnone|].
  unfold float_decimal. now rewrite Hnone.
Qed.

Lemma decimal_price_other_space_witness :
  clean_decimal (py "1" ++ 160 :: py "234") = py "1" ++ 160 :: py "234"
  /\ decimal_price (py "1" ++ 160 :: py "234") = None
  /\ float_decimal (JStr (py "1" ++ 160 :: py "234")) = Err ValueError.
Proof.
  apply (@decimal_price_other_space (py "1") (py "234") 160).
  - discriminate.
  - discriminate.
  - repeat constructor.
  - repeat constructor.
  - reflexivity.
  - discriminate.
Defined.

Lemma lstrip_incl s c : In c (lstrip s) -> In c s.
Proof.
  destruct (lstrip_suffix s) as (p & Hp). intros H. rewrite Hp.
  apply in_or_app. now right.
Qed.

Lemma strip_incl s c : In c (strip s) -> In c s.
Proof.
  unfold strip. intros H. apply lstrip_incl.
  destruct (rstrip_prefix (lstrip s)) as (q & Hq). rewrite Hq.
  apply in_or_app. now left.
Qed.

(** X3. Lines 26 and 55, for every text: what the decimal strategy
    hands to [float] holds no space U+0020 and no comma, and has no white
    space at either end. *)
Theorem clean_decimal_shape :
  forall raw : pystr,
    Forall (fun c => c <> 32 /\ c <> 44) (clean_decimal raw)
    /\ strip (clean_decimal raw) = clean_decimal raw.
Proof.
  intros raw. split; [|apply strip_idempotent].
  unfold clean_decimal. change (py " ") with [32]. change (py ",") with [44].
  change (py ".") with [46].
  set (s2 := replace (replace raw artifact_thin_space []) artifact_currency []).
  rewrite !replace_char. apply Forall_forall. intros c Hc.
  apply strip_incl in Hc.
  apply in_flat_map in Hc as (d & Hd & Hc).
  apply in_flat_map in Hd as (e & _ & Hd).
  destruct (32 =? e) eqn:E32; [destruct Hd|].
  destruct Hd as [<- | []]. apply N.eqb_neq in E32.
  destruct (44 =? e) eqn:E44.
  - destruct Hc as [<- | []]. split; discriminate.
  - destruct Hc as [<- | []]. apply N.eqb_neq in E44. split; congruence.
Qed.

(** X4. Line 84: a character that is no digit does not count, wherever
    it stands; a minus sign or a decimal point in the text changes
    neither the digits kept nor the price. *)
Theorem digits_price_skips :
  forall (a b : pystr) (c : N),
    isdigit c = false ->
    digits_only (a ++ c :: b) = digits_only (a ++ b)
    /\ digits_price (a ++ c :: b) = digits_price (a ++ b).
Proof.
  intros a b c Hc.
  assert (H : digits_only (a ++ c :: b) = digits_only (a ++ b)).
  { unfold digits_only. rewrite !filter_app. cbn [filter]. now rewrite Hc. }
  split; [exact H|]. unfold digits_price. now rewrite H.
Qed.

Lemma digits_price_skips_witness :
  digits_only (py "-12" ++ 46 :: py "50") = digits_only (py "-12" ++ py "50")
  /\ digits_price (py "-12" ++ 46 :: py "50")
     = digits_price (py "-12" ++ py "50").
Proof.
  apply (@digits_price_skips (py "-12") (py "50") 46). reflexivity.
Defined.

Lemma tolower_inv c x :
  tolower c = x -> c = x \/ c + 32 = x.
Proof.
  unfold tolower. destruct ((65 <=? c) && (c <=? 90)); intros <-; auto.
Qed.

Ltac letter H :=
  apply tolower_inv in H;
  destruct H as [H | H];
  [ subst
  | match type of H with
    | ?c + 32 = ?x =>
      let v := eval vm_compute in (x - 32) in
      assert (c = v) by lia; subst
    end ].

(** X5. Lines 26 and 55 on a word of [float]: the text nan, inf or
    infinity, in any mix of upper and lower case, is parsed without
    error, so the item is kept with a price that is not a number or is
    infinite. *)
Theorem decimal_price_word :
  forall s : pystr,
    In (map tolower s) [py "nan"; py "inf"; py "infinity"] ->
    exists f,
      decimal_price s = Some f /\ float_decimal (JStr s) = Ok f
      /\ (f = NaN \/ f = Inf false).
Proof.
  intros s H.
  assert (G : forall f, decimal_price s = Some f -> (f = NaN \/ f = Inf false) ->
                exists f, decimal_price s = Some f /\ float_decimal (JStr s) = Ok f
                          /\ (f = NaN \/ f = Inf false)).
  { intros f Hf Hk. exists f. unfold float_decimal. rewrite Hf. auto. }
  cbn [In] in H.
  change (py "nan") with [110; 97; 110] in H.
  change (py "inf") with [105; 110; 102] in H.
  change (py "infinity") with [105; 110; 102; 105; 110; 105; 116; 121] in H.
  destruct H as [H | [H | [H | []]]].
  - symmetry in H.
    destruct s as [|c1 [|c2 [|c3 [|? ?]]]]; try discriminate.
    cbn [map] in H. injection H as H1 H2 H3.
    letter H1; letter H2; letter H3; apply (G NaN); auto; vm_compute; reflexivity.
  - symmetry in H.
    destruct s as [|c1 [|c2 [|c3 [|? ?]]]]; try discriminate.
    cbn [map] in H. injection H as H1 H2 H3.
    letter H1; letter H2; letter H3; apply (G (Inf false)); auto; vm_compute; reflexivity.
  - symmetry in H.
    destruct s as [|c1 [|c2 [|c3 [|c4 [|c5 [|c6 [|c7 [|c8 [|? ?]]]]]]]]];
      try discriminate.
    cbn [map] in H. injection H as H1 H2 H3 H4 H5 H6 H7 H8.
    letter H1; letter H2; letter H3; letter H4; letter H5; letter H6;
      letter H7; letter H8;
      apply (G (Inf false)); auto; vm_compute; reflexivity.
Qed.

Lemma decimal_price_word_witness :
  exists f,
    decimal_price (py "NaN") = Some f /\ float_decimal (JStr (py "NaN")) = Ok f
    /\ (f = NaN \/ f = Inf false).
Proof.
  apply (@decimal_price_word (py "NaN")). vm_compute. now left.
Defined.

End PriceExtras.

Module ReportFacts.
Import PyStr PyFloat Price Prog Bot Logic Spec Exec.
Local Open Scope nat_scope.

Lemma wpt_mono R (p : prog R) : forall logs n (Q Q' : R -> list log_record -> nat -> Prop),
  (forall r l m, Q r l m -> Q' r l m) -> wpt p logs n Q -> wpt p logs n Q'.
Proof.
  induction p as [r | l k IH | X c k IH]; intros logs n Q Q' HQ; cbn [wpt]; eauto.
Qed.

Lemma wpt_pbind R T (p : prog R) (f : R -> prog T) : forall logs n
    (Q : T -> list log_record -> nat -> Prop),
  wpt p logs n (fun r l m => wpt (f r) l m Q) -> wpt (pbind p f) logs n Q.
Proof.
  induction p as [r | l k IH | X c k IH]; intros logs n Q; cbn [wpt pbind]; auto.
Qed.

Section Rules.
Context {S : Type}.
Implicit Types (s : S) (logs : list log_record) (n : nat).

Lemma wptm_mono A (m : pym S A) s logs n
      (Q Q' : result A -> S -> list log_record -> nat -> Prop) :
  (forall r s' l k, Q r s' l k -> Q' r s' l k) ->
  wptm m s logs n Q -> wptm m s logs n Q'.
Proof. intros H. apply wpt_mono. intros [r s']. apply H. Qed.

Lemma wptm_ret A (a : A) s logs n (Q : result A -> S -> list log_record -> nat -> Prop) :
  Q (Ok a) s logs n -> wptm (ret a) s logs n Q.
Proof. exact (fun H => H). Qed.

Lemma wptm_lift A (r : result A) s logs n
      (Q : result A -> S -> list log_record -> nat -> Prop) :
  Q r s logs n -> wptm (lift r) s logs n Q.
Proof. exact (fun H => H). Qed.

Lemma wptm_await X (c : call X) s logs n
      (Q : result X -> S -> list log_record -> nat -> Prop) :
  (forall r, Q r s logs (Datatypes.S n)) -> wptm (await c) s logs n Q.
Proof. exact (fun H => H). Qed.

Lemma wptm_log l s logs n (Q : result unit -> S -> list log_record -> nat -> Prop) :
  Q (Ok tt) s (logs ++ [l]) n -> wptm (log l) s logs n Q.
Proof. exact (fun H => H). Qed.

Lemma wptm_get s logs n (Q : result S -> S -> list log_record -> nat -> Prop) :
  Q (Ok s) s logs n -> wptm get s logs n Q.
Proof. exact (fun H => H). Qed.

Lemma wptm_modify (f : S -> S) s logs n
      (Q : result unit -> S -> list log_record -> nat -> Prop) :
  Q (Ok tt) (f s) logs n -> wptm (modify f) s logs n Q.
Proof. exact (fun H => H). Qed.

Lemma wptm_bind A B (m : pym S A) (f : A -> pym S B) s logs n
      (Q : result B -> S -> list log_record -> nat -> Prop) :
  wptm m s logs n (fun r s' l k =>
    match r with
    | Ok a => wptm (f a) s' l k Q
    | Err e => Q (Err e) s' l k
    end) ->
  wptm (bind m f) s logs n Q.
Proof.
  intros H. unfold wptm, bind. apply wpt_pbind.
  revert H. apply wpt_mono. intros [[a|e] s']; auto.
Qed.

Lemma wptm_try_except A (m : pym S A) (h : exn -> pym S A) s logs n
      (Q : result A -> S -> list log_record -> nat -> Prop) :
  wptm m s logs n (fun r s' l k =>
    match r with
    | Ok a => Q (Ok a) s' l k
    | Err e => wptm (h e) s' l k Q
    end) ->
  wptm (try_except m h) s logs n Q.
Proof.
  intros H. unfold wptm, try_except. apply wpt_pbind.
  revert H. apply wpt_mono. intros [[a|e] s']; auto.
Qed.

Lemma wptm_for_each A (body : A -> pym S unit)
      (I : list A -> S -> list log_record -> nat -> Prop) :
  (forall x done s logs n, I done s logs n ->
     wptm (body x) s logs n (fun r s' l k => r = Ok tt /\ I (done ++ [x]) s' l k)) ->
  forall xs done s logs n, I done s logs n ->
    wptm (for_each xs body) s logs n
         (fun r s' l k => r = Ok tt /\ I (done ++ xs) s' l k).
Proof.
  intros Hbody. induction xs as [|x xs IH]; intros done s logs n HI; cbn [for_each].
  - apply wptm_ret. rewrite app_nil_r. auto.
  - apply wptm_bind. eapply wptm_mono; [|apply Hbody; eassumption].
    intros r s' l k [-> HI']. cbn.
    eapply wptm_mono; [|apply IH; eassumption].
    cbn. intros r s'' l' k' [-> H]. rewrite <- app_assoc in H. auto.
Qed.

End Rules.

Lemma wpt_function S A (s0 : S) (m : pym S A) logs n
      (Q : result A -> list log_record -> nat -> Prop) :
  wptm m s0 logs n (fun r _ => Q r) -> wpt (function s0 m) logs n Q.
Proof. intros H. unfold function. apply wpt_pbind. exact H. Qed.

(** One card: a listing after four calls, or a warning after at most
    four. *)
Lemma parse_item_report src card results logs n :
  wptm (parse_item src card) results logs n (fun r s' l k =>
    r = Ok tt /\
    ((exists it, s' = results ++ [it] /\ l = logs /\ k = n + 4)
     \/ (s' = results /\ n + 1 <= k <= n + 4
         /\ exists w, item_warning src w /\ l = logs ++ [w]))).
Proof.
  assert (W : forall e k (Q : result unit -> list listing -> list log_record -> nat -> Prop),
            (forall w, item_warning src w -> Q (Ok tt) results (logs ++ [w]) k) ->
            wptm (log (LogRecord WARNING (item_error_text src) (Some e))) results logs k Q).
  { intros e k Q HQ. apply wptm_log, HQ. now exists e. }
  unfold parse_item. apply wptm_try_except.
  apply wptm_bind, wptm_await. intros [title_|e].
  2:{ apply W. intros w Hw. split; [reflexivity|]. right.
      repeat split; try lia. now exists w. }
  apply wptm_bind, wptm_await. intros [price_raw|e].
  2:{ apply W. intros w Hw. split; [reflexivity|]. right.
      repeat split; try lia. now exists w. }
  apply wptm_bind, wptm_lift.
  destruct (to_price src price_raw) as [price_|e].
  2:{ apply W. intros w Hw. split; [reflexivity|]. right.
      repeat split; try lia. now exists w. }
  apply wptm_bind, wptm_await. intros [href|e].
  2:{ apply W. intros w Hw. split; [reflexivity|]. right.
      repeat split; try lia. now exists w. }
  apply wptm_bind, wptm_await. intros [image_|e].
  2:{ apply W. intros w Hw. split; [reflexivity|]. right.
      repeat split; try lia. now exists w. }
  apply wptm_bind, wptm_lift.
  destruct (str_strip title_) as [stripped|e].
  2:{ apply W. intros w Hw. split; [reflexivity|]. right.
      repeat split; try lia. now exists w. }
  apply wptm_modify. split; [reflexivity|]. left. eexists.
  repeat split. lia.
Qed.

(** The loop over the cards, started after [n0] calls with nothing
    written: one listing or one warning per card. *)
Lemma for_cards_report src cards n0 :
  wptm (for_each cards (parse_item src)) [] [] n0 (fun r s' l k =>
    r = Ok tt /\ Forall (item_warning src) l
    /\ List.length s' + List.length l = List.length cards
    /\ n0 + 4 * List.length s' + List.length l <= k
    /\ k <= n0 + 4 * (List.length s' + List.length l)).
Proof.
  pose (I := fun (done : list handle) (s : list listing) (l : list log_record) (k : nat) =>
               Forall (item_warning src) l
               /\ List.length s + List.length l = List.length done
               /\ n0 + 4 * List.length s + List.length l <= k
               /\ k <= n0 + 4 * (List.length s + List.length l)).
  eapply wptm_mono;
    [|apply (@wptm_for_each _ _ (parse_item src) I) with (done := [])].
  - cbn. intros r s' l k [-> H]. split; [reflexivity | exact H].
  - intros x done s logs n (H1 & H2 & H3 & H4).
    eapply wptm_mono; [|apply parse_item_report].
    cbn. intros r s' l k [-> [(it & -> & -> & ->) | (-> & Hk & w & Hw & ->)]];
      (split; [reflexivity|]); unfold I; rewrite !length_app; cbn [List.length].
    + repeat split; [exact H1 | lia..].
    + repeat split; [|lia..]. apply Forall_app. split; [exact H1 | now constructor].
  - unfold I. cbn. repeat split; [constructor | lia..].
Qed.

(** What an extractor reports, whatever the browser answers. *)
Lemma parse_source_report src query :
  wpt (parse_source src query) [] 0 (fun r logs n =>
    exists items, r = Ok items /\ report src items logs n).
Proof.
  unfold parse_source. apply wpt_function.
  assert (Hfail : forall e n (Q : result unit -> list listing -> list log_record -> nat -> Prop),
            (forall l,
               (l = [LogRecord WARNING (timeout_text src) None]
                \/ exists e', e' <> PlaywrightTimeoutError
                     /\ l = [LogRecord ERROR (failed_text src) (Some e')]) ->
               Q (Ok tt) [] l n) ->
            wptm (on_failure src e) [] [] n Q).
  { intros e n Q HQ.
    destruct e; apply wptm_log, HQ; cbn [app];
      (now left) || (right; eexists; split; [|reflexivity]; discriminate). }
  assert (Hend : forall l n,
            1 <= n <= 3 ->
            (l = [LogRecord WARNING (timeout_text src) None]
             \/ exists e', e' <> PlaywrightTimeoutError
                  /\ l = [LogRecord ERROR (failed_text src) (Some e')]) ->
            wptm get [] l n (fun r _ logs k =>
              exists items, r = Ok items /\ report src items logs k)).
  { intros l n Hn Hl. apply wptm_get. exists []. split; [reflexivity|].
    left. auto. }
  apply wptm_bind, wptm_try_except.
  apply wptm_bind, wptm_await.
  intros [[]|e]; [|apply Hfail; intros l Hl; apply Hend; [lia | exact Hl]].
  apply wptm_bind, wptm_await.
  intros [[]|e]; [|apply Hfail; intros l Hl; apply Hend; [lia | exact Hl]].
  apply wptm_bind, wptm_await.
  intros [cards|e]; [|apply Hfail; intros l Hl; apply Hend; [lia | exact Hl]].
  eapply wptm_mono; [|apply for_cards_report].
  intros r s' l k (-> & H1 & H2 & H3 & H4). cbv beta iota.
  apply wptm_get. exists s'. split; [reflexivity|]. right.
  pose proof (firstn_le_length 5 cards) as H5.
  repeat split; [exact H1 | lia..].
Qed.

End ReportFacts.

Module ExecFacts.
Import PyStr PyFloat Price Prog Bot Logic Spec Exec.
Import ProgFacts TraceFacts ReportFacts.
Local Open Scope nat_scope.

Lemma own_app i ev ev' : own i (ev ++ ev') = own i ev ++ own i ev'.
Proof. apply filter_app. Qed.

Lemma logs_in_app ev ev' : logs_in (ev ++ ev') = logs_in ev ++ logs_in ev'.
Proof.
  induction ev as [|e ev IH]; [reflexivity|].
  destruct e; cbn [app logs_in]; now rewrite ?IH.
Qed.

Lemma awaits_in_app ev ev' : awaits_in (ev ++ ev') = awaits_in ev + awaits_in ev'.
Proof.
  induction ev as [|e ev IH]; [reflexivity|].
  destruct e; cbn [app awaits_in]; now rewrite ?IH.
Qed.

Section OneTask.
Context {A : Type}.
Variable ans : forall X, call X -> result X -> Prop.
Implicit Types (p : prog (result A)) (r : result A) (h : list event).

Lemma done_event_own i k p :
  own k (done_event i p) = if Nat.eqb k i then done_event i p else [].
Proof.
  destruct p; cbn; [|now destruct (Nat.eqb k i)..].
  now destruct (Nat.eqb k i).
Qed.

(** The events of an execution are events of the task. *)
Lemma exec_own i k p h r :
  exec ans i p h r -> own k h = if Nat.eqb k i then h else [].
Proof.
  induction 1 as [r | l q h r _ IH | X c q x h r _ _ IH].
  - now destruct (Nat.eqb k i).
  - cbn [own filter of_task]. fold (own k (done_event i q ++ h)).
    rewrite own_app, done_event_own, IH. now destruct (Nat.eqb k i).
  - cbn [own filter of_task]. fold (own k (done_event i (q x) ++ h)).
    rewrite own_app, done_event_own, IH. now destruct (Nat.eqb k i).
Qed.

Lemma exec_own_same i p h r : exec ans i p h r -> own i h = h.
Proof. intros H. rewrite (exec_own i H). now rewrite Nat.eqb_refl. Qed.

Lemma exec_own_other i k p h r : k <> i -> exec ans i p h r -> own k h = [].
Proof.
  intros Hne H. rewrite (exec_own k H).
  now destruct (Nat.eqb_spec k i).
Qed.

Lemma exec_ret_inv i r0 h r : exec ans i (Ret r0) h r -> h = [] /\ r = r0.
Proof. inversion 1; subst. now split. Qed.

Lemma logs_in_done i p : logs_in (done_event i p) = [].
Proof. now destruct p. Qed.

Lemma awaits_in_done i p : awaits_in (done_event i p) = 0.
Proof. now destruct p. Qed.

(** What [wpt] promises holds of every execution. *)
Lemma exec_wpt i p h r :
  exec ans i p h r ->
  forall logs n (Q : result A -> list log_record -> nat -> Prop),
    wpt p logs n Q -> Q r (logs ++ logs_in h) (n + awaits_in h).
Proof.
  induction 1 as [r | l q h r _ IH | X c q x h r _ _ IH]; intros logs n Q Hw.
  - cbn in *. now rewrite app_nil_r, Nat.add_0_r.
  - cbn [wpt] in Hw. specialize (IH _ _ _ Hw).
    cbn [logs_in awaits_in]. rewrite logs_in_app, awaits_in_app.
    rewrite logs_in_done, awaits_in_done. cbn [app Nat.add].
    now rewrite <- app_assoc in IH.
  - cbn [wpt] in Hw. specialize (IH _ _ _ (Hw x)).
    cbn [logs_in awaits_in]. rewrite logs_in_app, awaits_in_app.
    rewrite logs_in_done, awaits_in_done. cbn [app Nat.add].
    now rewrite Nat.add_succ_r.
Qed.

Section Browser.
Variable St : Type.
Variable respond : forall X, call X -> St -> result X * St.
Hypothesis respond_ans : forall X (c : call X) (s : St), ans c (fst (respond c s)).

Lemma run_exec i p : forall s,
  exec ans i p (snd (run respond i p s)) (fst (fst (run respond i p s))).
Proof.
  induction p as [r | l k IH | X c k IH]; intros s; cbn [run].
  - constructor.
  - specialize (IH s). destruct (run respond i k s) as [[r s'] ev]. cbn [fst snd] in *.
    assert (E : (if is_ret k then Done i (failure r) :: ev else ev)
                = done_event i k ++ ev).
    { destruct k; cbn; try reflexivity.
      apply exec_ret_inv in IH as [-> ->]. reflexivity. }
    rewrite E. now constructor.
  - pose proof (respond_ans c s) as Ha.
    destruct (respond c s) as [x s1]. cbn [fst] in Ha. specialize (IH x s1).
    destruct (run respond i (k x) s1) as [[r s'] ev]. cbn [fst snd] in *.
    assert (E : (if is_ret (k x) then Done i (failure r) :: ev else ev)
                = done_event i (k x) ++ ev).
    { destruct (k x); cbn; try reflexivity.
      apply exec_ret_inv in IH as [-> ->]. reflexivity. }
    rewrite E. now constructor.
Qed.

(** One resumption is the start of every execution of what is left. *)
Lemma step_exec i p s h r :
  exec ans i (fst (fst (step respond i p s))) h r ->
  exec ans i p (snd (step respond i p s) ++ h) r.
Proof.
  destruct p as [r0 | l k | X c k]; cbn [step].
  - cbn. auto.
  - cbn. intros H. now constructor.
  - pose proof (respond_ans c s) as Ha.
    destruct (respond c s) as [x s1]. cbn in *. intros H. now constructor.
Qed.

Lemma step_own i k p s :
  own k (snd (step respond i p s))
  = if Nat.eqb k i then snd (step respond i p s) else [].
Proof.
  destruct p as [r0 | l q | X c q]; cbn [step].
  - cbn. now destruct (Nat.eqb k i).
  - cbn [snd own filter of_task]. fold (own k (done_event i q)).
    rewrite done_event_own. now destruct (Nat.eqb k i).
  - destruct (respond c s) as [x s1].
    cbn [snd own filter of_task]. fold (own k (done_event i (q x))).
    rewrite done_event_own. now destruct (Nat.eqb k i).
Qed.

Lemma nth_error_update_same {X} (l : list X) i x y :
  nth_error l i = Some y -> nth_error (update i x l) i = Some x.
Proof.
  revert i. induction l as [|z l IH]; intros i H; [destruct i; discriminate|].
  destruct i as [|i]; cbn [update nth_error] in *; auto.
Qed.

(** Under the schedule, what is left of each task continues an
    execution of the task it was, with the task's own events so far. *)
Lemma run_schedule_exec sched : forall (ts : list (prog (result A))) s i p',
  nth_error (fst (fst (run_schedule respond sched ts s))) i = Some p' ->
  exists p,
    nth_error ts i = Some p
    /\ forall h r, exec ans i p' h r ->
         exec ans i p (own i (snd (run_schedule respond sched ts s)) ++ h) r.
Proof.
  induction sched as [|j sched IH]; intros ts s i p' Hi; cbn [run_schedule] in *.
  - exists p'. split; [exact Hi|]. now intros h r H.
  - destruct (nth_error ts j) as [pj|] eqn:Hj; [|now apply IH].
    pose proof (@step_exec j pj s) as Hstep.
    pose proof (step_own j i pj s) as Hown.
    destruct (step respond j pj s) as [[pj' s1] ev]. cbn [fst snd] in Hstep, Hown.
    specialize (IH (update j pj' ts) s1 i p').
    destruct (run_schedule respond sched (update j pj' ts) s1) as [[ts' s'] evs].
    cbn [fst snd] in *. destruct (IH Hi) as (p & Hp & Hex).
    rewrite own_app, Hown.
    destruct (Nat.eqb_spec i j) as [-> | Hne].
    + rewrite (@nth_error_update_same _ ts j pj' pj Hj) in Hp. injection Hp as <-.
      exists pj. split; [exact Hj|]. intros h r H.
      rewrite <- app_assoc. apply Hstep. now apply Hex.
    + rewrite nth_error_update_other in Hp by congruence.
      exists p. split; [exact Hp|]. exact Hex.
Qed.

Lemma finish_own_before : forall (ts : list (prog (result A))) i s k,
  k < i -> own k (snd (finish respond i ts s)) = [].
Proof.
  induction ts as [|p ts IH]; intros i s k Hk; cbn [finish]; [reflexivity|].
  pose proof (run_exec i p s) as Hr.
  destruct (run respond i p s) as [[r s1] ev]. cbn [fst snd] in Hr.
  specialize (IH (S i) s1 k).
  destruct (finish respond (S i) ts s1) as [[rs s'] evs]. cbn [fst snd] in *.
  rewrite own_app, IH by lia.
  assert (Hne : k <> i) by lia.
  now rewrite (exec_own_other Hne Hr).
Qed.

Lemma finish_exec : forall (ts : list (prog (result A))) i s j p,
  nth_error ts j = Some p ->
  exists r,
    nth_error (fst (fst (finish respond i ts s))) j = Some r
    /\ exec ans (i + j) p (own (i + j) (snd (finish respond i ts s))) r.
Proof.
  induction ts as [|q ts IH]; intros i s j p Hj; [destruct j; discriminate|].
  cbn [finish].
  pose proof (run_exec i q s) as Hr.
  destruct (run respond i q s) as [[r s1] ev]. cbn [fst snd] in Hr.
  assert (Hlt : i < S i) by lia.
  pose proof (finish_own_before ts s1 Hlt) as Hb.
  destruct j as [|j]; cbn [nth_error] in Hj.
  - injection Hj as ->.
    destruct (finish respond (S i) ts s1) as [[rs s'] evs]. cbn [fst snd] in *.
    exists r. split; [reflexivity|]. rewrite Nat.add_0_r.
    rewrite own_app, Hb, app_nil_r. now rewrite (exec_own_same Hr).
  - destruct (IH (S i) s1 j p Hj) as (r' & Hn & Hex).
    destruct (finish respond (S i) ts s1) as [[rs s'] evs]. cbn [fst snd] in *.
    exists r'. split; [exact Hn|].
    replace (i + S j) with (S i + j) by lia.
    rewrite own_app.
    assert (Hne : S i + j <> i) by lia.
    now rewrite (exec_own_other Hne Hr).
Qed.

(** Under every schedule each task ends as in an execution of its own:
    its events in the whole trace are those of the task run alone against
    the answers it got. *)
Lemma run_all_exec sched (ts : list (prog (result A))) s i p :
  nth_error ts i = Some p ->
  exists r,
    nth_error (fst (fst (run_all respond sched ts s))) i = Some r
    /\ exec ans i p (own i (snd (run_all respond sched ts s))) r.
Proof.
  intros Hi. unfold run_all.
  pose proof (run_schedule_exec sched ts s i) as Hs.
  destruct (run_schedule respond sched ts s) as [[ts' s1] ev] eqn:E.
  cbn [fst snd] in Hs.
  assert (Hlen : exists p', nth_error ts' i = Some p').
  { assert (L : List.length ts' = List.length ts).
    { clear -E. revert ts s ts' s1 ev E.
      induction sched as [|j sched IH]; intros ts s ts' s1 ev E; cbn [run_schedule] in E.
      - now injection E as <- _ _.
      - destruct (nth_error ts j) as [pj|]; [|now apply IH in E].
        destruct (step respond j pj s) as [[pj' s2] e1].
        destruct (run_schedule respond sched (update j pj' ts) s2) as [[t2 s3] e2] eqn:E2.
        injection E as <- _ _. apply IH in E2. rewrite E2.
        clear. revert j. induction ts as [|x ts IHts]; intros [|j]; cbn; auto. }
    destruct (nth_error ts' i) as [p'|] eqn:E'; [now exists p'|].
    apply nth_error_None in E'. rewrite L in E'.
    apply nth_error_None in E'. congruence. }
  destruct Hlen as (p' & Hp').
  destruct (Hs p' Hp') as (p0 & Hp0 & Hex).
  rewrite Hi in Hp0. injection Hp0 as <-.
  destruct (finish_exec ts' 0 s1 i Hp') as (r & Hr & Hf).
  destruct (finish respond 0 ts' s1) as [[rs s'] evs]. cbn [fst snd Nat.add] in *.
  exists r. split; [exact Hr|]. rewrite own_app. now apply Hex.
Qed.

End Browser.
End OneTask.

End ExecFacts.

Module HandlerFacts.
Import PyStr PyFloat Price Prog Bot Logic Spec Exec.
Import ProgFacts SchedulerFacts TraceFacts SearchFacts ReportFacts ExecFacts.
Local Open Scope nat_scope.

Lemma three_nth query i src :
  nth_error [wildberries; ozon; yandex_market] i = Some src ->
  nth_error (three query) i = Some (parse_source src query).
Proof.
  intros Hi.
  destruct i as [|[|[|i]]]; cbn in Hi |- *; try injection Hi as <-;
    try reflexivity; destruct i; discriminate.
Qed.

Section Handler.
Variable St : Type.
Variable respond : forall X, call X -> St -> result X * St.

Lemma three_exec query sched s i src :
  nth_error [wildberries; ozon; yandex_market] i = Some src ->
  exists r,
    nth_error (fst (fst (run_all respond sched (three query) s))) i = Some r
    /\ exec any_answer i (parse_source src query)
            (own i (snd (run_all respond sched (three query) s))) r.
Proof.
  intros Hi. apply run_all_exec; [exact (fun _ _ _ => I)|].
  now apply three_nth.
Qed.

Lemma three_report query sched s i src items :
  nth_error [wildberries; ozon; yandex_market] i = Some src ->
  nth_error (fst (fst (run_all respond sched (three query) s))) i = Some (Ok items) ->
  report src items
    (logs_in (own i (snd (run_all respond sched (three query) s))))
    (awaits_in (own i (snd (run_all respond sched (three query) s)))).
Proof.
  intros Hi Hr. destruct (three_exec query sched s i Hi) as (r & Hr' & Hex).
  rewrite Hr in Hr'. injection Hr' as <-.
  pose proof (exec_wpt Hex _ _ _ (parse_source_report src query)) as H.
  cbn [app Nat.add] in H. destruct H as (items' & [= <-] & H). exact H.
Qed.

End Handler.

End HandlerFacts.

(** What is written on a site *)
Module SiteLogFacts.
Import PyStr PyFloat Price Prog Bot Logic Spec Exec SiteLog.
Import ProgFacts SiteFacts ExecFacts HandlerFacts.
Local Open Scope nat_scope.

Section OnSite.
Variable w : site.

(** An execution against the answers of the site ends as [eval] says
    and writes what [written] says. *)
Lemma exec_written A i (p : prog (result A)) h r :
  exec (answered_by w) i p h r -> r = eval w p /\ logs_in h = written w p.
Proof.
  induction 1 as [r | l q h r _ IH | X c q x h r Hx _ IH]; cbn [eval written].
  - now split.
  - destruct IH as [-> IH]. split; [reflexivity|].
    cbn [logs_in]. now rewrite logs_in_app, logs_in_done, IH.
  - unfold answered_by in Hx. subst x. destruct IH as [-> IH].
    split; [reflexivity|].
    cbn [logs_in]. now rewrite logs_in_app, logs_in_done, IH.
Qed.

Lemma written_pbind R T (p : prog R) (f : R -> prog T) :
  written w (pbind p f) = written w p ++ written w (f (eval w p)).
Proof.
  induction p as [r | l k IH | X c k IH]; cbn [pbind eval written app]; auto.
  now rewrite IH.
Qed.

Lemma written_bind S A B (m : pym S A) (f : A -> pym S B) s :
  written w (bind m f s)
  = written w (m s)
    ++ match eval w (m s) with
       | (Ok a, s') => written w (f a s')
       | (Err _, _) => []
       end.
Proof.
  unfold bind. rewrite written_pbind.
  now destruct (eval w (m s)) as [[a|e] s'].
Qed.

Lemma written_try_except S A (m : pym S A) (h : exn -> pym S A) s :
  written w (try_except m h s)
  = written w (m s)
    ++ match eval w (m s) with
       | (Ok _, _) => []
       | (Err e, s') => written w (h e s')
       end.
Proof.
  unfold try_except. rewrite written_pbind.
  now destruct (eval w (m s)) as [[a|e] s'].
Qed.

Lemma written_await S X (c : call X) (s : S) : written w (await c s) = [].
Proof. reflexivity. Qed.

Lemma written_lift S A (r : result A) (s : S) : written w (lift r s) = [].
Proof. reflexivity. Qed.

Lemma eval_lift S A (r : result A) (s : S) : eval w (lift r s) = (r, s).
Proof. reflexivity. Qed.

Lemma written_on_failure src e results :
  written w (on_failure src e results) = [failure_record src e].
Proof. now destruct e. Qed.

Lemma site_item_card src card :
  site_item w src card
  = match site_card w src card with
    | Ok it => [it]
    | Err _ => []
    end.
Proof.
  unfold site_item, site_card.
  destruct (on_eval w card (title_selector src) text_content); [|reflexivity].
  destruct (on_eval w card (price_selector src) text_content); [|reflexivity].
  destruct (to_price src a0); [|reflexivity].
  destruct (on_eval w card (link_selector src) el_href); [|reflexivity].
  destruct (on_eval w card (py "img") el_src); [|reflexivity].
  now destruct (str_strip a).
Qed.

(** The body of the item, before its handler: it writes nothing and
    ends as the card does on the site. *)
Lemma item_body src card results :
  forall body : pym (list listing) unit,
    body = (title_ <- await (query_selector_eval card (title_selector src) text_content) ;;
            price_raw <- await (query_selector_eval card (price_selector src) text_content) ;;
            price_ <- lift (to_price src price_raw) ;;
            href <- await (query_selector_eval card (link_selector src) el_href) ;;
            image_ <- await (query_selector_eval card (py "img") el_src) ;;
            stripped <- lift (str_strip title_) ;;
            modify (fun results =>
              results ++ [ {| title := stripped;
                              marketplace := label src;
                              price := price_;
                              url := href;
                              image := image_ |} ]))%pym ->
    written w (body results) = []
    /\ eval w (body results)
       = match site_card w src card with
         | Ok it => (Ok tt, results ++ [it])
         | Err e => (Err e, results)
         end.
Proof.
  intros body ->. unfold site_card.
  rewrite written_bind, !eval_bind, written_await, !eval_await. cbn [answer app].
  destruct (on_eval w card (title_selector src) text_content) as [title_|e];
    [|now split].
  rewrite written_bind, !eval_bind, written_await, !eval_await. cbn [answer app].
  destruct (on_eval w card (price_selector src) text_content) as [price_raw|e];
    [|now split].
  rewrite written_bind, !eval_bind, written_lift, !eval_lift. cbn [app].
  destruct (to_price src price_raw) as [price_|e]; [|now split].
  rewrite written_bind, !eval_bind, written_await, !eval_await. cbn [answer app].
  destruct (on_eval w card (link_selector src) el_href) as [href|e];
    [|now split].
  rewrite written_bind, !eval_bind, written_await, !eval_await. cbn [answer app].
  destruct (on_eval w card (py "img") el_src) as [image_|e];
    [|now split].
  rewrite written_bind, !eval_bind, written_lift, !eval_lift. cbn [app].
  destruct (str_strip title_) as [stripped|e]; now split.
Qed.

Lemma written_parse_item src card results :
  written w (parse_item src card results) = site_card_log w src card.
Proof.
  unfold parse_item, site_card_log. rewrite written_try_except.
  edestruct item_body as [-> ->]; [reflexivity|].
  now destruct (site_card w src card).
Qed.

Lemma written_for_cards src cards : forall results,
  written w (for_each cards (parse_item src) results)
  = flat_map (site_card_log w src) cards.
Proof.
  induction cards as [|card cards IH]; intros results; cbn [for_each flat_map].
  - reflexivity.
  - rewrite written_bind, written_parse_item, eval_parse_item. now rewrite IH.
Qed.

(** On such a site an extractor writes the records of [site_logs]. *)
Lemma written_parse_source src query :
  written w (parse_source src query) = site_logs w src query.
Proof.
  unfold parse_source, site_logs, function.
  rewrite written_pbind, written_bind, written_try_except, written_bind.
  rewrite !eval_bind, !eval_try_except, !eval_bind, written_await, !eval_await.
  cbn [answer app].
  destruct (on_goto w (build_url src query)) as [e|]; cbn [unit_result].
  { rewrite written_on_failure, eval_on_failure. reflexivity. }
  rewrite written_bind, !eval_bind, written_await, !eval_await. cbn [answer app].
  destruct (on_wait w (result_selector src)) as [e|]; cbn [unit_result].
  { rewrite written_on_failure, eval_on_failure. reflexivity. }
  rewrite written_bind, !eval_bind, written_await, !eval_await. cbn [answer app].
  destruct (on_query_all w (result_selector src)) as [cards|e].
  { rewrite written_for_cards, eval_for_cards. cbn. now rewrite !app_nil_r. }
  rewrite written_on_failure, eval_on_failure. reflexivity.
Qed.

(** Under every schedule, what a source writes on such a site. *)
Lemma three_written query sched i src :
  nth_error [wildberries; ozon; yandex_market] i = Some src ->
  nth_error (fst (fst (run_all (site_respond w) sched (three query) tt))) i
  = Some (Ok (site_listings w src query))
  /\ logs_in (own i (snd (run_all (site_respond w) sched (three query) tt)))
     = site_logs w src query.
Proof.
  intros Hi.
  destruct (@run_all_exec _ (answered_by w) unit (site_respond w)
              (fun _ _ _ => eq_refl) sched (three query) tt i
              (parse_source src query) (three_nth query i Hi))
    as (r & Hr & Hex).
  apply exec_written in Hex as [-> Hlogs].
  rewrite eval_parse_source in Hr. rewrite written_parse_source in Hlogs.
  now split.
Qed.

End OnSite.

End SiteLogFacts.

Module UrlExtras.
Import PyStr Prog Bot Spec SearchFacts.
Local Open Scope N_scope.

Lemma unreserved_bound b : unreserved b = true -> b <= 126.
Proof.
  unfold unreserved.
  rewrite !orb_true_iff, !andb_true_iff, !N.leb_le, !N.eqb_eq. lia.
Qed.

Lemma encode_cons c s :
  spec_percent_encode (c :: s) = spec_percent_encode [c] ++ spec_percent_encode s.
Proof. unfold spec_percent_encode. cbn [flat_map]. now rewrite app_nil_r. Qed.

Lemma encode_unreserved c : unreserved c = true -> spec_percent_encode [c] = [c].
Proof.
  intros H. pose proof (@unreserved_bound c H) as Hb.
  unfold spec_percent_encode, utf8_encode. cbn [flat_map].
  replace (c <? 128) with true by (symmetry; apply N.ltb_lt; lia).
  cbn [flat_map app]. now rewrite H.
Qed.

Lemma encode_other c :
  unreserved c = false ->
  exists h1 h2 t, spec_percent_encode [c] = 37 :: h1 :: h2 :: t.
Proof.
  intros H.
  assert (U : forall a x, 127 <= a -> unreserved (a + x) = false).
  { intros a x Ha. destruct (unreserved (a + x)) eqn:E; [|reflexivity].
    apply unreserved_bound in E. lia. }
  unfold spec_percent_encode, utf8_encode. cbn [flat_map]. rewrite app_nil_r.
  destruct (c <? 128).
  - cbn [flat_map]. rewrite H. cbn [app]. eexists. eexists. eexists. reflexivity.
  - destruct (c <? 2048); [|destruct (c <? 65536)]; cbn [flat_map];
      rewrite U by lia; cbn [app]; eexists; eexists; eexists; reflexivity.
Qed.

Lemma encode_length s :
  (List.length s <= List.length (spec_percent_encode s))%nat.
Proof.
  induction s as [|c s IH]; [apply le_n|].
  rewrite encode_cons, length_app. destruct (unreserved c) eqn:E.
  - rewrite encode_unreserved by exact E. cbn [List.length]. lia.
  - destruct (@encode_other c E) as (h1 & h2 & t & ->). cbn [List.length]. lia.
Qed.

(** Percent-encoding leaves a text as it is exactly when every
    character of it is unreserved. *)
Lemma encode_fixed s :
  spec_percent_encode s = s <-> forallb unreserved s = true.
Proof.
  induction s as [|c s IH]; [now split|].
  rewrite encode_cons. cbn [forallb]. destruct (unreserved c) eqn:E.
  - rewrite encode_unreserved by exact E. cbn [app andb]. rewrite <- IH.
    split; [now intros [= H] | now intros ->].
  - destruct (@encode_other c E) as (h1 & h2 & t & ->). cbn [app andb].
    split; [|discriminate]. intros [= _ Hr]. exfalso.
    pose proof (encode_length s) as Hl.
    apply (f_equal (@List.length N)) in Hr.
    cbn [List.length] in Hr. rewrite length_app in Hr. lia.
Qed.

(** X12. Lines 16, 45 and 74: the url an extractor navigates to is the
    percent-encoded one exactly when the query is made of unreserved
    characters only (ASCII letters and digits, '-', '.', '_', '~'); a
    query with a space, '&', '%' or a letter outside ASCII is sent as it
    is. *)
Theorem verbatim_url_encoded_iff_unreserved :
  forall (src : source) (query : pystr),
    (exists k, parse_source src query = Await (goto (build_url src query) 15000) k)
    /\ (build_url src query = search_url src ++ spec_percent_encode query
        <-> forallb unreserved query = true).
Proof.
  intros src query. split; [exact (parse_source_starts src query)|].
  rewrite <- encode_fixed. unfold build_url. split.
  - intros H. apply app_inv_head in H. now symmetry.
  - now intros ->.
Qed.

End UrlExtras.

Module HandlerExtras.
Import PyStr PyFloat Price Prog Bot Logic Spec Exec SiteLog Sites.
Import StripFacts ProgFacts SchedulerFacts TraceFacts SearchFacts.
Import ReportFacts ExecFacts HandlerFacts SiteFacts SiteLogFacts.
Local Open Scope nat_scope.

Lemma card_outcome w src card :
  match site_card w src card with
  | Ok it => site_item w src card = [it] /\ site_card_log w src card = []
  | Err e =>
    site_item w src card = []
    /\ site_card_log w src card = [LogRecord WARNING (item_error_text src) (Some e)]
  end.
Proof.
  rewrite site_item_card. unfold site_card_log.
  now destruct (site_card w src card).
Qed.

Lemma cards_count w src cards :
  List.length (flat_map (site_item w src) cards)
  + List.length (flat_map (site_card_log w src) cards)
  = List.length cards.
Proof.
  induction cards as [|card cards IH]; [reflexivity|].
  cbn [flat_map List.length]. rewrite !length_app.
  pose proof (card_outcome w src card) as H.
  destruct (site_card w src card); destruct H as [-> ->]; cbn [List.length]; lia.
Qed.

Lemma gather_on_site w query sched :
  fst (fst (gather (site_respond w) sched (three query) tt))
  = Ok [site_listings w wildberries query; site_listings w ozon query;
        site_listings w yandex_market query].
Proof.
  destruct (three_sound (site_respond w) query sched tt)
    as (wb & oz & ym & Hr & Hg & _).
  rewrite run_all_eval in Hr. unfold three in Hr. cbn [map] in Hr.
  unfold parse_wildberries, parse_ozon, parse_yandex_market in Hr.
  rewrite !eval_parse_source in Hr. injection Hr as -> -> ->.
  exact Hg.
Qed.

(** X6. Lines 15 to 100 under [gather] on a site whose pages answer the
    same under every interleaving: however the tasks are interleaved, a
    source returns the listings and writes the records of the cards of
    its page.  When the navigation, the wait or the query fails there is
    no listing and one record, a warning without exception for a
    Playwright timeout and an error with the exception otherwise.
    Otherwise each of the first five cards, in the order of the cards,
    gives its listing and no record, or no listing and one warning with
    the exception of the first step of the item that raised; the listings
    and the warnings together are as many as the cards looked at. *)
Theorem cards_accounted :
  forall (w : site) (query : pystr) (sched : list nat) (i : nat) (src : source),
    nth_error [wildberries; ozon; yandex_market] i = Some src ->
    fst (fst (gather (site_respond w) sched
                [parse_wildberries query; parse_ozon query;
                 parse_yandex_market query] tt))
    = Ok [site_listings w wildberries query; site_listings w ozon query;
          site_listings w yandex_market query]
    /\ logs_in (own i (snd (gather (site_respond w) sched
                              [parse_wildberries query; parse_ozon query;
                               parse_yandex_market query] tt)))
       = site_logs w src query
    /\ (match on_goto w (build_url src query) with
        | Some e =>
          site_listings w src query = []
          /\ site_logs w src query = [failure_record src e]
        | None =>
          match on_wait w (result_selector src) with
          | Some e =>
            site_listings w src query = []
            /\ site_logs w src query = [failure_record src e]
          | None =>
            match on_query_all w (result_selector src) with
            | Err e =>
              site_listings w src query = []
              /\ site_logs w src query = [failure_record src e]
            | Ok cards =>
              site_listings w src query
              = flat_map (site_item w src) (firstn 5 cards)
              /\ site_logs w src query
                 = flat_map (site_card_log w src) (firstn 5 cards)
              /\ List.length (site_listings w src query)
                 + List.length (site_logs w src query)
                 = Nat.min 5 (List.length cards)
            end
          end
        end)
    /\ (forall card : handle,
          match site_card w src card with
          | Ok it => site_item w src card = [it] /\ site_card_log w src card = []
          | Err e =>
            site_item w src card = []
            /\ site_card_log w src card
               = [LogRecord WARNING (item_error_text src) (Some e)]
          end).
Proof.
  intros w query sched i src Hi.
  split; [apply gather_on_site|].
  split.
  { pose proof (gather_events (site_respond w) sched (three query) tt) as Hev.
    unfold three in Hev. rewrite Hev.
    apply (three_written w query sched i Hi). }
  split; [|intros card; apply card_outcome].
  unfold site_listings, site_logs.
  destruct (on_goto w (build_url src query)); [now split|].
  destruct (on_wait w (result_selector src)); [now split|].
  destruct (on_query_all w (result_selector src)) as [cards|e]; [|now split].
  split; [reflexivity|]. split; [reflexivity|].
  rewrite cards_count. apply length_firstn.
Qed.

Lemma cards_accounted_witness :
  fst (fst (gather (site_respond no_image_site) [2; 0; 1]
              [parse_wildberries (py "ab"); parse_ozon (py "ab");
               parse_yandex_market (py "ab")] tt))
  = Ok [site_listings no_image_site wildberries (py "ab");
        site_listings no_image_site ozon (py "ab");
        site_listings no_image_site yandex_market (py "ab")]
  /\ logs_in (own 0 (snd (gather (site_respond no_image_site) [2; 0; 1]
                            [parse_wildberries (py "ab"); parse_ozon (py "ab");
                             parse_yandex_market (py "ab")] tt)))
     = site_logs no_image_site wildberries (py "ab")
  /\ (match on_goto no_image_site (build_url wildberries (py "ab")) with
      | Some e =>
        site_listings no_image_site wildberries (py "ab") = []
        /\ site_logs no_image_site wildberries (py "ab")
           = [failure_record wildberries e]
      | None =>
        match on_wait no_image_site (result_selector wildberries) with
        | Some e =>
          site_listings no_image_site wildberries (py "ab") = []
          /\ site_logs no_image_site wildberries (py "ab")
             = [failure_record wildberries e]
        | None =>
          match on_query_all no_image_site (result_selector wildberries) with
          | Err e =>
            site_listings no_image_site wildberries (py "ab") = []
            /\ site_logs no_image_site wildberries (py "ab")
               = [failure_record wildberries e]
          | Ok cards =>
            site_listings no_image_site wildberries (py "ab")
            = flat_map (site_item no_image_site wildberries) (firstn 5 cards)
            /\ site_logs no_image_site wildberries (py "ab")
               = flat_map (site_card_log no_image_site wildberries) (firstn 5 cards)
            /\ List.length (site_listings no_image_site wildberries (py "ab"))
               + List.length (site_logs no_image_site wildberries (py "ab"))
               = Nat.min 5 (List.length cards)
          end
        end
      end)
  /\ (forall card : handle,
        match site_card no_image_site wildberries card with
        | Ok it =>
          site_item no_image_site wildberries card = [it]
          /\ site_card_log no_image_site wildberries card = []
        | Err e =>
          site_item no_image_site wildberries card = []
          /\ site_card_log no_image_site wildberries card
             = [LogRecord WARNING (item_error_text wildberries) (Some e)]
        end).
Proof.
  apply (@cards_accounted no_image_site (py "ab") [2; 0; 1] 0%nat wildberries).
  reflexivity.
Defined.

(** X11. Lines 15 to 100 under [gather], whatever the browser answers
    and however the tasks are interleaved, bounds on what an extractor
    does.  Either it writes one record (a warning without exception for
    a Playwright timeout, an error with the exception otherwise), has
    awaited at most three calls and returns no listing; or it writes item
    warnings only, listings and warnings together are at most five, and
    the calls it has awaited are three, four for each listing and between
    one and four for each warning.  So it never awaits more than 23
    calls. *)
Theorem extractors_report :
  forall (St : Type) (respond : forall X, call X -> St -> result X * St)
         (query : pystr) (sched : list nat) (s : St),
    let tasks := [parse_wildberries query; parse_ozon query;
                  parse_yandex_market query] in
    let ev := snd (gather respond sched tasks s) in
    exists wb oz ym,
      fst (fst (gather respond sched tasks s)) = Ok [wb; oz; ym]
      /\ report wildberries wb (logs_in (own 0 ev)) (awaits_in (own 0 ev))
      /\ report ozon oz (logs_in (own 1 ev)) (awaits_in (own 1 ev))
      /\ report yandex_market ym (logs_in (own 2 ev)) (awaits_in (own 2 ev))
      /\ awaits_in (own 0 ev) <= 23 /\ awaits_in (own 1 ev) <= 23
      /\ awaits_in (own 2 ev) <= 23.
Proof.
  intros St respond query sched s tasks ev.
  destruct (three_sound respond query sched s) as (wb & oz & ym & Hr & Hg & _).
  exists wb, oz, ym. split; [exact Hg|].
  assert (Hev : ev = snd (run_all respond sched (three query) s))
    by apply gather_events.
  rewrite Hev.
  assert (R0 := @three_report St respond query sched s 0 wildberries wb eq_refl).
  assert (R1 := @three_report St respond query sched s 1 ozon oz eq_refl).
  assert (R2 := @three_report St respond query sched s 2 yandex_market ym eq_refl).
  rewrite Hr in R0, R1, R2.
  specialize (R0 eq_refl). specialize (R1 eq_refl). specialize (R2 eq_refl).
  assert (B : forall src items logs n, report src items logs n -> n <= 23).
  { intros src items logs n [(_ & Hn & _) | (_ & H1 & _ & H2)]; lia. }
  repeat split; try assumption; eapply B; eassumption.
Qed.

Lemma lstrip_spaces a r : forallb isspace a = true -> lstrip (a ++ r) = lstrip r.
Proof.
  induction a as [|c a IH]; [reflexivity|]. cbn [forallb app lstrip].
  intros H. apply andb_prop in H as [-> H]. now apply IH.
Qed.

Lemma forallb_rev {X} (f : X -> bool) l : forallb f (rev l) = forallb f l.
Proof.
  induction l as [|x l IH]; [reflexivity|]. cbn [rev forallb].
  rewrite forallb_app, IH. cbn. now rewrite andb_true_r, andb_comm.
Qed.

Lemma strip_sparse a c b :
  forallb isspace a = true -> forallb isspace b = true ->
  List.length (strip (a ++ c :: b)) <= 1 /\ strip a = [].
Proof.
  intros Ha Hb. split.
  - unfold strip. rewrite lstrip_spaces by exact Ha. cbn [lstrip].
    destruct (isspace c) eqn:Hc.
    + rewrite <- (app_nil_r b), lstrip_spaces by exact Hb. cbn. lia.
    + unfold rstrip. cbn [rev].
      rewrite lstrip_spaces by now rewrite forallb_rev.
      cbn [lstrip]. rewrite Hc. cbn. lia.
  - unfold strip. rewrite <- (app_nil_r a), lstrip_spaces by exact Ha. reflexivity.
Qed.

(** X9. Lines 103 to 106: a message with at most one character that is
    not white space, wherever the white space stands, is answered with
    the validation prompt and nothing else: no announcement, no browser,
    no navigation. *)
Theorem sparse_message_rejected :
  forall (St : Type) (respond : forall X, call X -> St -> result X * St)
         (a b : pystr) (c : N) (sched : list nat) (s : St),
    forallb isspace a = true -> forallb isspace b = true ->
    search_products respond (a ++ c :: b) sched s
    = {| events := [ReplyText PROMPT]; raised := None; final := s |}
    /\ search_products respond a sched s
       = {| events := [ReplyText PROMPT]; raised := None; final := s |}.
Proof.
  intros St respond a b c sched s Ha Hb.
  destruct (@strip_sparse a c b Ha Hb) as [H1 H2].
  assert (E1 : (len (strip (a ++ c :: b)) <? 2) = true)
    by (apply Nat.ltb_lt; unfold len; lia).
  assert (E2 : (len (strip a) <? 2) = true) by now rewrite H2.
  unfold search_products. rewrite E1, E2. split; reflexivity.
Qed.

Lemma sparse_message_rejected_witness :
  search_products (site_respond blank_card_site)
    (py "  " ++ 1103%N :: py " ") [] tt
  = {| events := [ReplyText PROMPT]; raised := None; final := tt |}
  /\ search_products (site_respond blank_card_site) (py "  ") [] tt
     = {| events := [ReplyText PROMPT]; raised := None; final := tt |}.
Proof.
  apply (@sparse_message_rejected unit (site_respond blank_card_site)
           (py "  ") (py " ") 1103%N [] tt); reflexivity.
Defined.

(** X10. Lines 23 to 37, 52 to 66 and 81 to 95 on a site: a card
    gives a listing only if all four evaluations succeed.  When the
    evaluation of the title, of the price, of the link or of the image
    raises (there is no such element in the card), the card gives no
    listing and [results] is as before; the placeholder does not stand in
    for an image element that is missing. *)
Theorem card_needs_every_field :
  forall (w : site) (src : source) (card : handle) (results : list listing)
         (e : exn),
    on_eval w card (title_selector src) text_content = Err e
    \/ on_eval w card (price_selector src) text_content = Err e
    \/ on_eval w card (link_selector src) el_href = Err e
    \/ on_eval w card (py "img") el_src = Err e ->
    eval w (parse_item src card results) = (Ok tt, results)
    /\ site_item w src card = [].
Proof.
  intros w src card results e H.
  assert (Hs : site_item w src card = []).
  { unfold site_item.
    destruct (on_eval w card (title_selector src) text_content) as [t|]; [|reflexivity].
    destruct (on_eval w card (price_selector src) text_content) as [p|]; [|reflexivity].
    destruct (to_price src p); [|reflexivity].
    destruct (on_eval w card (link_selector src) el_href) as [h|]; [|reflexivity].
    destruct (on_eval w card (py "img") el_src) as [i|]; [|reflexivity].
    destruct H as [H | [H | [H | H]]]; discriminate. }
  split; [|exact Hs]. now rewrite eval_parse_item, Hs, app_nil_r.
Qed.

Lemma card_needs_every_field_witness :
  eval no_image_site (parse_item wildberries 0 []) = (Ok tt, [])
  /\ site_item no_image_site wildberries 0 = [].
Proof.
  apply (@card_needs_every_field no_image_site wildberries 0 [] PlaywrightError).
  right. right. right. reflexivity.
Defined.

End HandlerExtras.
